(** * File integrity monitor: baseline / diff engine

    A shallow embedding of [fim/hasher.py], [fim/database.py] and
    [fim/monitor.py], and the properties of the baseline/diff engine.

    - Paths and names are [string]s; [os.path] is the POSIX flavour.
    - Python sets are [gset string], the SQLite table is a
      [gmap string Row] keyed by its primary key.
    - Effects (the SQLite handle, the logger calls, the clock) are threaded
      through a state-and-exception monad [M]; [try]/[except] is [try_except].
    - The operating system is read through the oracles of [Env]. *)

From Stdlib Require Import ZArith Ascii String List.
From stdpp Require Import base tactics option list gmap strings pretty.

Local Open Scope string_scope.
#[local] Set Warnings "-clear-no-such-hyp".

(** ** Strings as Python uses them *)

Module PyStr.

(** [s.startswith(pre)] *)
Definition startswith (s pre : string) : bool := String.prefix pre s.

(** [s.endswith("/")]-style test on the last character. *)
Fixpoint endswith_char (s : string) (c : ascii) : bool :=
  match s with
  | EmptyString => false
  | String a EmptyString => Ascii.eqb a c
  | String _ rest => endswith_char rest c
  end.

Definition lower_ascii (c : ascii) : ascii :=
  let n := N_of_ascii c in
  if ((65 <=? n) && (n <=? 90))%N then ascii_of_N (n + 32) else c.

(** [s.lower()] on ASCII text. *)
Fixpoint lower (s : string) : string :=
  match s with
  | EmptyString => EmptyString
  | String c rest => String (lower_ascii c) (lower rest)
  end.

(** [s.split(sep)] for a one-character separator. *)
Fixpoint split (sep : ascii) (s : string) : list string :=
  match s with
  | EmptyString => [EmptyString]
  | String c rest =>
      if Ascii.eqb c sep then EmptyString :: split sep rest
      else match split sep rest with
           | [] => [String c EmptyString]
           | x :: xs => String c x :: xs
           end
  end.

(** Truthiness of a [str]: only the empty string is falsy. *)
Definition truthy (s : string) : bool :=
  match s with EmptyString => false | _ => true end.

Fixpoint oct_digits (fuel : nat) (n : N) (acc : string) : string :=
  match fuel with
  | O => acc
  | S fuel' =>
      let acc' := String (ascii_of_N (48 + n mod 8)) acc in
      if (n / 8 =? 0)%N then acc' else oct_digits fuel' (n / 8) acc'
  end.

(** [oct(z)]: ['0o644'], ['-0o7']. *)
Definition oct (z : Z) : string :=
  let n := Z.abs_N z in
  let body := "0o" +:+ oct_digits (S (N.to_nat (N.log2 n))) n "" in
  if (z <? 0)%Z then "-" +:+ body else body.

End PyStr.

(** ** [os.path] (posixpath) *)

Module PosixPath.
Import PyStr.

Definition sep : ascii := "/"%char.

Definition isabs (p : string) : bool := startswith p "/".

(** [os.path.join(a, b)] *)
Definition join (a b : string) : string :=
  if startswith b "/" then b
  else if negb (truthy a) || endswith_char a sep then a +:+ b
  else a +:+ "/" +:+ b.

(** One turn of the component loop of [normpath]. *)
Definition norm_step (initial_slashes : nat) (new_comps : list string)
    (comp : string) : list string :=
  if String.eqb comp "" || String.eqb comp "." then new_comps
  else if negb (String.eqb comp "..")
          || (Nat.eqb initial_slashes 0 && (Nat.eqb (length new_comps) 0))
          || (negb (Nat.eqb (length new_comps) 0)
              && String.eqb (List.last new_comps "") "..")
  then new_comps ++ [comp]
  else List.removelast new_comps.

(** [os.path.normpath(path)] *)
Definition normpath (path : string) : string :=
  if String.eqb path "" then "."
  else
    let initial_slashes :=
      if startswith path "/" then
        if startswith path "//" && negb (startswith path "///") then 2 else 1
      else 0 in
    let comps := fold_left (norm_step initial_slashes) (split sep path) [] in
    let joined := String.concat "/" comps in
    let path' :=
      match initial_slashes with
      | 0 => joined
      | 1 => "/" +:+ joined
      | _ => "//" +:+ joined
      end in
    if truthy path' then path' else ".".

(** [os.path.abspath(path)] with the process working directory [cwd]. *)
Definition abspath (cwd path : string) : string :=
  normpath (if isabs path then path else join cwd path).

End PosixPath.

(** ** Exceptions, the environment and the world *)

(** The exception classes the three modules raise or catch. *)
Inductive exn_class :=
  | FileNotFoundError   (* a subclass of OSError *)
  | OSError             (* PermissionError, IsADirectoryError, ... *)
  | ValueError
  | sqlite3_Error.

Record exn := Exn { exn_cls : exn_class; exn_str : string }.

Definition exn_class_eqb (a b : exn_class) : bool :=
  match a, b with
  | FileNotFoundError, FileNotFoundError | OSError, OSError
  | ValueError, ValueError | sqlite3_Error, sqlite3_Error => true
  | _, _ => false
  end.

(** [isinstance(e, cls)] over the hierarchy above. *)
Definition isinstance (e : exn) (cls : exn_class) : bool :=
  match cls, exn_cls e with
  | OSError, FileNotFoundError => true
  | c, d => exn_class_eqb c d
  end.

(** What a file-system call fails with: always an [OSError], and a
    [FileNotFoundError] when the path is gone. *)
Record os_error := { not_found : bool; strerror : string }.

Definition OSError_of (e : os_error) : exn :=
  Exn (if not_found e then FileNotFoundError else OSError) (strerror e).

(** Timestamps ([st_mtime], [st_ctime], [time.time()]) are only stored and
    compared with [!=]; they are modelled as integers (clock ticks). *)
Definition timestamp := Z.
Bind Scope Z_scope with timestamp.

Record stat_result := {
  st_size : Z;
  st_mtime : timestamp;
  st_ctime : timestamp;
  st_mode : Z
}.

(** What the process reads from the outside: the file system, the clock,
    [hashlib] and the settings of [fim/config.py]. *)
Record Env := {
  cwd : string;                                   (* os.getcwd() *)
  path_exists : string -> bool;                   (* os.path.exists *)
  os_walk : string -> list (string * list string);(* os.walk: (root, files) *)
  os_stat : string -> os_error + stat_result;     (* os.stat *)
  open_rb : string -> os_error + list Byte.byte;  (* open(p, 'rb') read to EOF *)
  time_time : nat -> timestamp;                   (* n-th reading of time.time() *)
  algorithms_available : list string;             (* hashlib.algorithms_available *)
  hexdigest : string -> list Byte.byte -> string;    (* hashlib.new(a) ... hexdigest() *)
  HASH_ALGORITHM : string;
  DATABASE_PATH : string
}.

Inductive Level := DEBUG | INFO | WARNING | ERROR | CRITICAL.

Module Baseline.
(** A row of [monitored_files], as [dict(row)] returns it. *)
Record entry := {
  file_path : string;
  file_hash : string;
  file_size : Z;
  modification_time : timestamp;
  creation_time : timestamp;
  permissions : Z;
  baseline_timestamp : timestamp
}.
End Baseline.

Module Metadata.
(** The dictionary [_get_file_metadata] returns. *)
Record t := {
  file_path : string;
  file_size : Z;
  modification_time : timestamp;
  creation_time : timestamp;
  permissions : Z
}.
End Metadata.

(** The statements [database.py] executes. *)
Inductive sql_stmt :=
  | CREATE_TABLE | INSERT_OR_REPLACE | SELECT_ROW | SELECT_PATHS | DELETE_ROW.

(** The SQLite file behind [db_path]: the error [sqlite3.connect] fails with,
    if any; the error each statement fails with, if any (locked, read-only,
    corrupt, full); and the table [monitored_files] ([None] until created). *)
Record Sqlite := {
  connect_error : option string;
  stmt_error : sql_stmt -> option string;
  table : option (gmap string Baseline.entry)
}.

(** The mutable state: the database, [self.conn], the logger calls made so
    far, and how many times the clock was read. *)
Record World := {
  storage : Sqlite;
  conn : bool;
  log : list (Level * string);
  ticks : nat
}.

Definition set_table (t : option (gmap string Baseline.entry)) (w : World) : World :=
  {| storage := {| connect_error := connect_error (storage w);
                   stmt_error := stmt_error (storage w); table := t |};
     conn := conn w; log := log w; ticks := ticks w |}.

Definition set_conn (c : bool) (w : World) : World :=
  {| storage := storage w; conn := c; log := log w; ticks := ticks w |}.

Definition add_log (r : Level * string) (w : World) : World :=
  {| storage := storage w; conn := conn w; log := log w ++ [r]; ticks := ticks w |}.

Definition tick (w : World) : World :=
  {| storage := storage w; conn := conn w; log := log w; ticks := S (ticks w) |}.

(** ** The state-and-exception monad *)

Definition M (A : Type) : Type := World -> (exn + A) * World.

Definition ret {A} (a : A) : M A := fun w => (inr a, w).

Definition raise {A} (e : exn) : M A := fun w => (inl e, w).

Definition bind {A B} (c : M A) (k : A -> M B) : M B :=
  fun w => match c w with
           | (inr a, w') => k a w'
           | (inl e, w') => (inl e, w')
           end.

(** [try: body except cls as e: handler e]; other exceptions pass through. *)
Definition try_except {A} (body : M A) (cls : exn -> bool) (handler : exn -> M A) : M A :=
  fun w => match body w with
           | (inl e, w') => if cls e then handler e w' else (inl e, w')
           | r => r
           end.

(** [except Exception] catches every modelled exception. *)
Definition Exception (e : exn) : bool := true.

Definition gets {A} (f : World -> A) : M A := fun w => (inr (f w), w).

Definition modify (f : World -> World) : M unit := fun w => (inr tt, f w).

Declare Scope fim_scope.
Delimit Scope fim_scope with fim.
Notation "x <- c ;; k" := (bind c (fun x => k))
  (at level 100, c at next level, right associativity) : fim_scope.
Notation "c ;;; k" := (bind c (fun _ => k))
  (at level 100, right associativity) : fim_scope.
Local Open Scope fim_scope.

(** [for x in l: s = body x s] with the loop state [s] passed along. *)
Fixpoint for_each {A S} (l : list A) (body : A -> S -> M S) (s : S) : M S :=
  match l with
  | [] => ret s
  | x :: rest => s' <- body x s ;; for_each rest body s'
  end.

(** A call of [fim_logger]. *)
Definition logger (lvl : Level) (msg : string) : M unit := modify (add_log (lvl, msg)).

(** An operating-system call: its outcome is read from the environment. *)
Definition os_call {A} (r : os_error + A) : M A :=
  fun w => match r with
           | inl e => (inl (OSError_of e), w)
           | inr a => (inr a, w)
           end.

Section Fim.

Variable env : Env.

Definition abspath (p : string) : string := PosixPath.abspath (cwd env) p.

(** *** fim/hasher.py *)

Definition CHUNK_SIZE : nat := 4096.

(** [for chunk in iter(lambda: f.read(4096), b""): hasher.update(chunk)].
    The hasher is represented by the bytes it has absorbed. *)
Fixpoint read_chunks (fuel : nat) (f hasher : list Byte.byte) : list Byte.byte :=
  match fuel with
  | O => hasher
  | S fuel' =>
      match take CHUNK_SIZE f with
      | [] => hasher
      | chunk => read_chunks fuel' (drop CHUNK_SIZE f) (hasher ++ chunk)
      end
  end.

Definition calculate_file_hash (file_path algorithm : string) : M string :=
  if negb (path_exists env file_path) then
    raise (Exn FileNotFoundError ("File not found: " +:+ file_path))
  else
    let algorithm := PyStr.lower algorithm in
    if negb (bool_decide (algorithm ∈ algorithms_available env)) then
      raise (Exn ValueError ("Unsupported hash algorithm: " +:+ algorithm))
    else
      logger DEBUG ("[*] Hashing file '" +:+ file_path +:+ "' with "
                    +:+ algorithm +:+ "...") ;;;
      try_except
        (f <- os_call (open_rb env file_path) ;;
         let hasher := read_chunks (S (length f)) f [] in
         let file_hash := hexdigest env algorithm hasher in
         logger DEBUG ("[+] File hash generated for " +:+ file_path +:+ ": "
                       +:+ file_hash) ;;;
         ret file_hash)
        Exception
        (fun e =>
           if isinstance e FileNotFoundError then
             logger ERROR ("[ERROR] File not found during hashing: " +:+ file_path) ;;;
             raise e
           else
             logger ERROR ("[ERROR] Failed to hash file " +:+ file_path +:+ ": "
                           +:+ exn_str e) ;;;
             raise e).

(** *** fim/database.py *)

Definition is_sqlite3_Error (e : exn) : bool := isinstance e sqlite3_Error.

(** [sqlite3.connect(self.db_path)] *)
Definition sqlite3_connect : M unit :=
  fun w => match connect_error (storage w) with
           | Some msg => (inl (Exn sqlite3_Error msg), w)
           | None => (inr tt, w)
           end.

(** [cursor.execute(stmt)] up to the point where the statement touches the
    table: it fails if the statement is faulty, and every statement but
    CREATE TABLE fails when the table does not exist. *)
Definition execute_on_table (stmt : sql_stmt) : M (gmap string Baseline.entry) :=
  fun w => match stmt_error (storage w) stmt with
           | Some msg => (inl (Exn sqlite3_Error msg), w)
           | None =>
               match table (storage w) with
               | Some t => (inr t, w)
               | None => (inl (Exn sqlite3_Error "no such table: monitored_files"), w)
               end
           end.

(** [CREATE TABLE IF NOT EXISTS monitored_files (...)] *)
Definition execute_create_table : M unit :=
  fun w => match stmt_error (storage w) CREATE_TABLE with
           | Some msg => (inl (Exn sqlite3_Error msg), w)
           | None =>
               match table (storage w) with
               | Some _ => (inr tt, w)
               | None => (inr tt, set_table (Some ∅) w)
               end
           end.

(** [time.time()] *)
Definition time_now : M timestamp :=
  n <- gets ticks ;; modify tick ;;; ret (time_time env n).

Definition _get_connection : M unit :=
  c <- gets conn ;;
  if c then ret tt
  else
    try_except
      (sqlite3_connect ;;;
       modify (set_conn true) ;;;
       logger INFO ("[*] FIM Database connection opened to " +:+ DATABASE_PATH env))
      is_sqlite3_Error
      (fun e =>
         logger CRITICAL ("[CRITICAL] FIM Database connection failed: " +:+ exn_str e) ;;;
         raise e).

Definition _init_db : M unit :=
  try_except
    (_get_connection ;;;
     execute_create_table ;;;
     logger INFO ("[*] FIM Database initialized at " +:+ DATABASE_PATH env))
    is_sqlite3_Error
    (fun e =>
       logger CRITICAL ("[CRITICAL] FIM Database initialization failed: " +:+ exn_str e)).

(** [DatabaseManager(db_path)]: [self.conn = None], then [_init_db()]. *)
Definition DatabaseManager : M unit :=
  modify (set_conn false) ;;; _init_db.

Definition save_baseline_entry (file_path file_hash : string) (file_size : Z)
    (modification_time creation_time : timestamp) (permissions : Z) : M unit :=
  try_except
    (_get_connection ;;;
     baseline_timestamp <- time_now ;;
     t <- execute_on_table INSERT_OR_REPLACE ;;
     modify (set_table (Some (<[file_path :=
       {| Baseline.file_path := file_path;
          Baseline.file_hash := file_hash;
          Baseline.file_size := file_size;
          Baseline.modification_time := modification_time;
          Baseline.creation_time := creation_time;
          Baseline.permissions := permissions;
          Baseline.baseline_timestamp := baseline_timestamp |}]> t))) ;;;
     logger DEBUG ("[DB] Saved baseline for " +:+ file_path))
    is_sqlite3_Error
    (fun e =>
       logger ERROR ("[DB_ERROR] Failed to save baseline for " +:+ file_path +:+ ": "
                     +:+ exn_str e)).

Definition get_baseline_entry (file_path : string) : M (option Baseline.entry) :=
  try_except
    (_get_connection ;;;
     t <- execute_on_table SELECT_ROW ;;
     ret (t !! file_path))
    is_sqlite3_Error
    (fun e =>
       logger ERROR ("[DB_ERROR] Failed to retrieve baseline for " +:+ file_path +:+ ": "
                     +:+ exn_str e) ;;;
       raise e).

Definition get_all_baseline_paths : M (gset string) :=
  try_except
    (_get_connection ;;;
     t <- execute_on_table SELECT_PATHS ;;
     ret (dom t))
    is_sqlite3_Error
    (fun e =>
       logger ERROR ("[DB_ERROR] Failed to get all baseline paths: " +:+ exn_str e) ;;;
       raise e).

Definition remove_baseline_entry (file_path : string) : M unit :=
  try_except
    (_get_connection ;;;
     t <- execute_on_table DELETE_ROW ;;
     modify (set_table (Some (delete file_path t))) ;;;
     logger DEBUG ("[DB] Removed baseline for " +:+ file_path))
    is_sqlite3_Error
    (fun e =>
       logger ERROR ("[DB_ERROR] Failed to remove baseline for " +:+ file_path +:+ ": "
                     +:+ exn_str e)).

(** *** fim/monitor.py *)

(** [self.monitored_paths] *)
Record MonitoredPaths := {
  include : list string;
  exclude : list string
}.

Variable monitored_paths : MonitoredPaths.

(** The include loop of [_is_path_monitored]. *)
Fixpoint include_loop (l : list string) (file_path : string) : bool :=
  match l with
  | [] => false
  | include_path :: rest =>
      if PyStr.startswith file_path (abspath include_path) then true
      else include_loop rest file_path
  end.

(** The exclude loop, followed by the include loop. *)
Fixpoint exclude_loop (l : list string) (file_path : string) : bool :=
  match l with
  | [] => include_loop (include monitored_paths) file_path
  | exclude_path :: rest =>
      if PyStr.startswith file_path (abspath exclude_path) then false
      else exclude_loop rest file_path
  end.

Definition _is_path_monitored (file_path : string) : bool :=
  exclude_loop (exclude monitored_paths) file_path.

Definition _get_file_metadata (file_path : string) : M (option Metadata.t) :=
  try_except
    (stat <- os_call (os_stat env file_path) ;;
     ret (Some {| Metadata.file_path := file_path;
                  Metadata.file_size := st_size stat;
                  Metadata.modification_time := st_mtime stat;
                  Metadata.creation_time := st_ctime stat;
                  Metadata.permissions := Z.land (st_mode stat) 511 |}))
    Exception
    (fun e =>
       if isinstance e FileNotFoundError then ret None
       else
         logger ERROR ("[ERROR] Failed to get metadata for " +:+ file_path +:+ ": "
                       +:+ exn_str e) ;;;
         ret None).

(** The body of the innermost loop of [create_baseline], for one
    [file_name] of one [root]; the loop state is [monitored_count]. *)
Definition baseline_file (root file_name : string) (monitored_count : nat) : M nat :=
  let file_path := PosixPath.join root file_name in
  if _is_path_monitored file_path then
    try_except
      (file_hash <- calculate_file_hash file_path (HASH_ALGORITHM env) ;;
       metadata <- _get_file_metadata file_path ;;
       match metadata with
       | Some metadata =>
           if PyStr.truthy file_hash then
             save_baseline_entry file_path file_hash
               (Metadata.file_size metadata)
               (Metadata.modification_time metadata)
               (Metadata.creation_time metadata)
               (Metadata.permissions metadata) ;;;
             ret (S monitored_count)
           else ret monitored_count
       | None => ret monitored_count
       end)
      Exception
      (fun e =>
         logger ERROR ("[ERROR] Failed to process " +:+ file_path
                       +:+ " for baseline: " +:+ exn_str e) ;;;
         ret monitored_count)
  else ret monitored_count.

(** [for root, _, files in os.walk(abs_include_path): for file_name in files: ...] *)
Definition baseline_walk (abs_include_path : string) (monitored_count : nat) : M nat :=
  for_each (os_walk env abs_include_path)
    (fun '(root, files) monitored_count =>
       for_each files (baseline_file root) monitored_count)
    monitored_count.

Definition baseline_include (include_path : string) (monitored_count : nat) : M nat :=
  let abs_include_path := abspath include_path in
  if negb (path_exists env abs_include_path) then
    logger WARNING ("[WARN] Include path '" +:+ abs_include_path
                    +:+ "' does not exist. Skipping.") ;;;
    ret monitored_count
  else baseline_walk abs_include_path monitored_count.

(** [create_baseline] has no [return]: its result is [None]. *)
Definition create_baseline : M unit :=
  logger INFO "[*] Creating new FIM baseline..." ;;;
  monitored_count <- for_each (include monitored_paths) baseline_include 0 ;;
  logger INFO ("[+] Baseline created with " +:+ pretty monitored_count +:+ " files.").

(** The entries of [changes['added']] and [changes['deleted']]. *)
Record Reported := { file : string; reason : string }.

(** The entries of [changes['modified']]; the constructor is the ['type']. *)
Inductive Modified :=
  | size_mismatch (file : string) (old_size new_size : Z)
  | mtime_mismatch (file : string) (old_mtime new_mtime : timestamp)
  | permissions_mismatch (file : string) (old_perms new_perms : string)
  | hash_mismatch (file : string) (old_hash new_hash : string).

Definition modified_file (m : Modified) : string :=
  match m with
  | size_mismatch f _ _ | mtime_mismatch f _ _
  | permissions_mismatch f _ _ | hash_mismatch f _ _ => f
  end.

Definition modified_type (m : Modified) : string :=
  match m with
  | size_mismatch _ _ _ => "size_mismatch"
  | mtime_mismatch _ _ _ => "mtime_mismatch"
  | permissions_mismatch _ _ _ => "permissions_mismatch"
  | hash_mismatch _ _ _ => "hash_mismatch"
  end.

Record Changes := {
  added : list Reported;
  modified : list Modified;
  deleted : list Reported
}.

Definition append_added (r : Reported) (c : Changes) : Changes :=
  {| added := added c ++ [r]; modified := modified c; deleted := deleted c |}.
Definition append_modified (m : Modified) (c : Changes) : Changes :=
  {| added := added c; modified := modified c ++ [m]; deleted := deleted c |}.
Definition append_deleted (r : Reported) (c : Changes) : Changes :=
  {| added := added c; modified := modified c; deleted := deleted c ++ [r] |}.

(** The walk of [check_integrity] that fills [current_paths]. *)
Definition current_file (root : string) (current_paths : gset string)
    (file_name : string) : gset string :=
  let file_path := PosixPath.join root file_name in
  if _is_path_monitored file_path then {[file_path]} ∪ current_paths
  else current_paths.

Definition current_walk (current_paths : gset string)
    (entry : string * list string) : gset string :=
  let '(root, files) := entry in
  fold_left (current_file root) files current_paths.

Definition current_include (current_paths : gset string)
    (include_path : string) : gset string :=
  let abs_include_path := abspath include_path in
  if negb (path_exists env abs_include_path) then current_paths
  else fold_left current_walk (os_walk env abs_include_path) current_paths.

Definition collect_current_paths : gset string :=
  fold_left current_include (include monitored_paths) ∅.

(** The [try] block of [check_integrity] (lines 156-174): the only call
    that can raise, [calculate_file_hash], comes before any append of its
    branch, so the handler continues with the list it was given. *)
Definition compare_with_baseline (file_path : string)
    (current_metadata : Metadata.t) (baseline_entry : Baseline.entry)
    (changes : Changes) : M Changes :=
  try_except
    (if negb (Z.eqb (Metadata.file_size current_metadata)
                    (Baseline.file_size baseline_entry)) then
       let changes := append_modified
         (size_mismatch file_path (Baseline.file_size baseline_entry)
            (Metadata.file_size current_metadata)) changes in
       logger WARNING ("[MODIFIED] Size mismatch for " +:+ file_path) ;;;
       ret changes
     else if negb (Z.eqb (Metadata.modification_time current_metadata)
                         (Baseline.modification_time baseline_entry)) then
       let changes := append_modified
         (mtime_mismatch file_path (Baseline.modification_time baseline_entry)
            (Metadata.modification_time current_metadata)) changes in
       logger WARNING ("[MODIFIED] Modification time mismatch for " +:+ file_path) ;;;
       ret changes
     else if negb (Z.eqb (Metadata.permissions current_metadata)
                         (Baseline.permissions baseline_entry)) then
       let changes := append_modified
         (permissions_mismatch file_path
            (PyStr.oct (Baseline.permissions baseline_entry))
            (PyStr.oct (Metadata.permissions current_metadata))) changes in
       logger WARNING ("[MODIFIED] Permissions mismatch for " +:+ file_path) ;;;
       ret changes
     else
       current_hash <- calculate_file_hash file_path (HASH_ALGORITHM env) ;;
       if negb (String.eqb current_hash (Baseline.file_hash baseline_entry)) then
         let changes := append_modified
           (hash_mismatch file_path (Baseline.file_hash baseline_entry)
              current_hash) changes in
         logger WARNING ("[MODIFIED] Hash mismatch for " +:+ file_path) ;;;
         ret changes
       else ret changes)
    Exception
    (fun e =>
       logger ERROR ("[ERROR] Error checking " +:+ file_path
                     +:+ " for modifications: " +:+ exn_str e) ;;;
       ret changes).

(** The body of the loop over [baseline_paths.intersection(current_paths)]. *)
Definition check_file (file_path : string) (changes : Changes) : M Changes :=
  current_metadata <- _get_file_metadata file_path ;;
  match current_metadata with
  | None => ret changes
  | Some current_metadata =>
      baseline_entry <- get_baseline_entry file_path ;;
      match baseline_entry with
      | None =>
          let changes := append_added
            {| file := file_path;
               reason := "File exists but is not in baseline" |} changes in
          logger INFO ("[ADDED] New file detected (edge case): " +:+ file_path) ;;;
          ret changes
      | Some baseline_entry =>
          compare_with_baseline file_path current_metadata baseline_entry changes
      end
  end.

Definition report_added (file_path : string) (changes : Changes) : M Changes :=
  let changes := append_added
    {| file := file_path; reason := "New file not in baseline" |} changes in
  logger INFO ("[ADDED] New file detected: " +:+ file_path) ;;;
  ret changes.

Definition report_deleted (file_path : string) (changes : Changes) : M Changes :=
  let changes := append_deleted
    {| file := file_path; reason := "File deleted from monitored path" |} changes in
  logger WARNING ("[DELETED] File deleted: " +:+ file_path) ;;;
  ret changes.

(** Python iterates a set in an unspecified order; [elements] fixes one. *)
Definition check_integrity : M Changes :=
  logger INFO "[*] Checking file integrity against baseline..." ;;;
  let changes := {| added := []; modified := []; deleted := [] |} in
  baseline_paths <- get_all_baseline_paths ;;
  let current_paths := collect_current_paths in
  let added_files := current_paths ∖ baseline_paths in
  let deleted_files := baseline_paths ∖ current_paths in
  changes <- for_each (elements added_files) report_added changes ;;
  changes <- for_each (elements deleted_files) report_deleted changes ;;
  changes <- for_each (elements (baseline_paths ∩ current_paths)) check_file changes ;;
  logger INFO "[+] Integrity check complete." ;;;
  ret changes.

End Fim.

Arguments include _ : assert.
Arguments exclude _ : assert.

(** *** fim/monitor.py: the configuration *)

(** What [yaml.safe_load(f)] makes of the configuration file, and what the
    two [config.get] calls then return. [yaml_mapping i e]: the document is
    a mapping, [i] and [e] are its values for ['include'] and ['exclude']
    ([None] when the key is absent; a value that is present is a list of
    strings). [yaml_YAMLError msg]: the parser raised [yaml.YAMLError].
    [yaml_Exception msg]: the [try] block raised anything else before the
    two assignments (the file cannot be opened, the document is not a
    mapping); [msg] is the text of the exception. *)
Inductive yaml_result :=
  | yaml_mapping (include_value exclude_value : option (list string))
  | yaml_YAMLError (msg : string)
  | yaml_Exception (msg : string).

Section Config.

Variable env : Env.
Variable safe_load : string -> yaml_result.

(** [_load_fim_config]: [monitored_paths] is [self.monitored_paths] on
    entry, and the result is what it is on exit. *)
Definition _load_fim_config (fim_config_path : string)
    (monitored_paths : MonitoredPaths) : M MonitoredPaths :=
  if negb (path_exists env fim_config_path) then
    logger WARNING ("[WARN] FIM config file not found at " +:+ fim_config_path
                    +:+ ". Using empty config.") ;;;
    ret monitored_paths
  else
    match safe_load fim_config_path with
    | yaml_mapping include_value exclude_value =>
        let monitored_paths :=
          {| include := default [] include_value;
             exclude := default [] exclude_value |} in
        logger INFO ("[*] Loaded FIM configuration: "
                     +:+ pretty (length (include monitored_paths))
                     +:+ " include paths, "
                     +:+ pretty (length (exclude monitored_paths))
                     +:+ " exclude paths.") ;;;
        ret monitored_paths
    | yaml_YAMLError msg =>
        logger ERROR ("[ERROR] Error parsing FIM config file " +:+ fim_config_path
                      +:+ ": " +:+ msg) ;;;
        ret monitored_paths
    | yaml_Exception msg =>
        logger ERROR ("[ERROR] Unexpected error loading FIM config: " +:+ msg) ;;;
        ret monitored_paths
    end.

(** [FileIntegrityMonitor(fim_config_path, db_manager)], with a
    [db_manager] given; the result is [self.monitored_paths]. *)
Definition FileIntegrityMonitor (fim_config_path : string) : M MonitoredPaths :=
  let monitored_paths := {| include := []; exclude := [] |} in
  monitored_paths <- _load_fim_config fim_config_path monitored_paths ;;
  logger INFO ("[*] FIM initialized. Monitoring config from: " +:+ fim_config_path) ;;;
  ret monitored_paths.

End Config.

(** *** fim/cli.py *)

(** The bodies of the three commands, as click calls them once the options
    are parsed. [database], the value of [--database], is the [db_path] of
    the environment ([DATABASE_PATH], the default of the option). *)

Inductive Stream := stdout | stderr.

(** How a command ends when no exception escapes it: the calls of
    [click.echo] it made, in order, and its exit status (0 when the body
    returns). An exception that escapes is the [inl] outcome of the monad. *)
Record Finished := {
  output : list (Stream * string);
  exit_code : nat
}.

Module Cli.

Section Commands.

Variable env : Env.
Variable safe_load : string -> yaml_result.

Definition newline : string := String (ascii_of_nat 10) EmptyString.






Definition status : M Finished :=
  let database := DATABASE_PATH env in
  logger INFO ("[*] Checking FIM baseline status for database: " +:+ database) ;;;
  if negb (path_exists env database) then
    ret {| output := [(stdout, "[!] Baseline database not found at " +:+ database
                               +:+ ". No baseline established.")];
           exit_code := 0 |}
  else
    DatabaseManager env ;;;
    all_paths <- get_all_baseline_paths env ;;
    ret {| output :=
             [(stdout, newline +:+ "--- FIM Baseline Status ---");
              (stdout, "Baseline Database: " +:+ database);
              (stdout, "Monitored Files in Baseline: " +:+ pretty (size all_paths));
              (stdout, "---------------------------")];
           exit_code := 0 |}.




End Commands.

End Cli.

(** * The vocabulary of the properties *)

(** ** Worlds, logs and outcomes *)

Definition add_logs (l : list (Level * string)) (w : World) : World :=
  {| storage := storage w; conn := conn w; log := log w ++ l; ticks := ticks w |}.

(** A computation that only logs: its outcome does not depend on the
    world, and it changes nothing but the log. *)
Definition logs_only {A} (c : M A) (r : exn + A) : Prop :=
  exists l, forall w, c w = (r, add_logs l w).


(** [hoare P c Q]: run from a world satisfying [P], [c] ends (with a value or
    an exception) in a world that satisfies [Q] of its outcome. *)
Definition hoare {A} (P : World -> Prop) (c : M A) (Q : exn + A -> World -> Prop) : Prop :=
  forall w, P w -> Q (fst (c w)) (snd (c w)).


(** ** The store *)

Definition with_table (t : option (gmap string Baseline.entry)) (st : Sqlite) : Sqlite :=
  {| connect_error := connect_error st; stmt_error := stmt_error st; table := t |}.

(** The database can be opened, no statement fails, and the table exists. *)
Definition healthy (st : Sqlite) : Prop :=
  connect_error st = None /\ (forall s, stmt_error st s = None) /\ is_Some (table st).

(** The storage failure that executing [stmt] meets in world [w], if any:
    the connection cannot be opened, the statement fails, or there is no
    table. *)
Definition storage_failure (stmt : sql_stmt) (w : World) : option string :=
  match (if conn w then None else connect_error (storage w)) with
  | Some msg => Some msg
  | None =>
      match stmt_error (storage w) stmt with
      | Some msg => Some msg
      | None =>
          match table (storage w) with
          | Some _ => None
          | None => Some "no such table: monitored_files"
          end
      end
  end.

(** A storage error went through, and the storage is indeed not healthy. *)
Definition storage_error (st : Sqlite) (e : exn) : Prop :=
  exn_cls e = sqlite3_Error /\ ~ healthy st.

Definition new_entry (file_path file_hash : string) (file_size : Z)
    (modification_time creation_time : timestamp) (permissions : Z)
    (baseline_timestamp : timestamp) : Baseline.entry :=
  {| Baseline.file_path := file_path;
     Baseline.file_hash := file_hash;
     Baseline.file_size := file_size;
     Baseline.modification_time := modification_time;
     Baseline.creation_time := creation_time;
     Baseline.permissions := permissions;
     Baseline.baseline_timestamp := baseline_timestamp |}.

(** The paths and the entries the store holds. *)
Definition stored_paths (w : World) : gset string :=
  match table (storage w) with
  | Some t => dom t
  | None => ∅
  end.

Definition stored_entry (w : World) (file_path : string) : option Baseline.entry :=
  match table (storage w) with
  | Some t => t !! file_path
  | None => None
  end.

(** ** The report *)

(** Every path the report names, collection after collection. *)
Definition reported_paths (changes : Changes) : list string :=
  (map file (added changes) ++ map modified_file (modified changes)
   ++ map file (deleted changes))%list.

Definition apply_mismatch (o : option Modified) (changes : Changes) : Changes :=
  match o with
  | Some m => append_modified m changes
  | None => changes
  end.

Definition new_file (file_path : string) : Reported :=
  {| file := file_path; reason := "New file not in baseline" |}.

Definition deleted_file (file_path : string) : Reported :=
  {| file := file_path; reason := "File deleted from monitored path" |}.


(** ** What the environment decides *)

Section Vocabulary.

Variable env : Env.
Variable mp : MonitoredPaths.

(** [p] starts with some entry of [l], each resolved by [abspath]. *)
Definition prefix_in (l : list string) (p : string) : Prop :=
  exists e, e ∈ l /\ PyStr.startswith p (abspath env e) = true.

(** The outcome of [calculate_file_hash], read off the environment. *)
Definition hash_outcome (file_path algorithm : string) : exn + string :=
  if negb (path_exists env file_path) then
    inl (Exn FileNotFoundError ("File not found: " +:+ file_path))
  else if negb (bool_decide (PyStr.lower algorithm ∈ algorithms_available env)) then
    inl (Exn ValueError ("Unsupported hash algorithm: " +:+ PyStr.lower algorithm))
  else match open_rb env file_path with
       | inl e => inl (OSError_of e)
       | inr f => inr (hexdigest env (PyStr.lower algorithm) f)
       end.

(** The outcome of [_get_file_metadata], read off the environment. *)
Definition metadata_outcome (file_path : string) : option Metadata.t :=
  match os_stat env file_path with
  | inl _ => None
  | inr stat =>
      Some {| Metadata.file_path := file_path;
              Metadata.file_size := st_size stat;
              Metadata.modification_time := st_mtime stat;
              Metadata.creation_time := st_ctime stat;
              Metadata.permissions := Z.land (st_mode stat) 511 |}
  end.

(** The first difference between the live file and its baseline entry, in
    the order the [try] block of [check_integrity] looks for it. *)
Definition first_mismatch (file_path : string) (current_metadata : Metadata.t)
    (baseline_entry : Baseline.entry) : option Modified :=
  if negb (Z.eqb (Metadata.file_size current_metadata)
                 (Baseline.file_size baseline_entry)) then
    Some (size_mismatch file_path (Baseline.file_size baseline_entry)
            (Metadata.file_size current_metadata))
  else if negb (Z.eqb (Metadata.modification_time current_metadata)
                      (Baseline.modification_time baseline_entry)) then
    Some (mtime_mismatch file_path (Baseline.modification_time baseline_entry)
            (Metadata.modification_time current_metadata))
  else if negb (Z.eqb (Metadata.permissions current_metadata)
                      (Baseline.permissions baseline_entry)) then
    Some (permissions_mismatch file_path
            (PyStr.oct (Baseline.permissions baseline_entry))
            (PyStr.oct (Metadata.permissions current_metadata)))
  else match hash_outcome file_path (HASH_ALGORITHM env) with
       | inr current_hash =>
           if negb (String.eqb current_hash (Baseline.file_hash baseline_entry)) then
             Some (hash_mismatch file_path (Baseline.file_hash baseline_entry)
                     current_hash)
           else None
       | inl _ => None
       end.

(** The files one [os.walk] visits, as [os.path.join(root, file_name)]. *)
Definition walk_files (abs_include_path : string) : list string :=
  flat_map (fun '(root, files) => map (PosixPath.join root) files)
           (os_walk env abs_include_path).

(** Every file path the include loop visits, in order, with repetitions
    when include roots overlap. *)
Definition visited_files : list string :=
  flat_map (fun include_path =>
              if negb (path_exists env (abspath env include_path)) then []
              else walk_files (abspath env include_path))
           (include mp).

(** What one turn of the third loop does to the report, given the table. *)
Definition check_step (t : gmap string Baseline.entry) (changes : Changes)
    (file_path : string) : Changes :=
  match metadata_outcome file_path with
  | None => changes
  | Some md =>
      match t !! file_path with
      | None =>
          append_added {| file := file_path;
                          reason := "File exists but is not in baseline" |} changes
      | Some e => apply_mismatch (first_mismatch file_path md e) changes
      end
  end.

(** The report of [check_integrity] as a function of the table. *)
Definition check_outcome (t : gmap string Baseline.entry) : Changes :=
  let baseline_paths := dom t in
  let current_paths := collect_current_paths env mp in
  fold_left (check_step t) (elements (baseline_paths ∩ current_paths))
    {| added := map new_file (elements (current_paths ∖ baseline_paths));
       modified := [];
       deleted := map deleted_file (elements (baseline_paths ∖ current_paths)) |}.

(** The digest and the metadata [create_baseline] captures for a file, when
    both can be had (and the digest is a non-empty string). *)
Definition captured (file_path : string) : option (string * Metadata.t) :=
  match hash_outcome file_path (HASH_ALGORITHM env) with
  | inr file_hash =>
      match metadata_outcome file_path with
      | Some metadata =>
          if PyStr.truthy file_hash then Some (file_hash, metadata) else None
      | None => None
      end
  | inl _ => None
  end.

(** The entry [save_baseline_entry] is asked to write for such a file. *)
Definition entry_of (file_path file_hash : string) (metadata : Metadata.t)
    (baseline_timestamp : timestamp) : Baseline.entry :=
  new_entry file_path file_hash (Metadata.file_size metadata)
    (Metadata.modification_time metadata) (Metadata.creation_time metadata)
    (Metadata.permissions metadata) baseline_timestamp.

(** The file is in scope and its digest and metadata were captured. *)
Definition to_baseline (file_path : string) : option (string * Metadata.t) :=
  if _is_path_monitored env mp file_path then captured file_path else None.


(** The entry is what [create_baseline] writes for the file as it is now. *)
Definition fresh (p : string) (e : Baseline.entry) : Prop :=
  exists h md ts, captured p = Some (h, md) /\ e = entry_of p h md ts.

(** The entry the third loop of [check_integrity] appends to [modified]
    for a path, if any: the metadata must be readable, the path must have
    an entry, and the two must differ. *)
Definition mismatch_of (t : gmap string Baseline.entry) (file_path : string)
    : option Modified :=
  match metadata_outcome file_path, t !! file_path with
  | Some md, Some e => first_mismatch file_path md e
  | _, _ => None
  end.

(** The monitored files [create_baseline] captures when it runs. *)
Definition baselined_file (file_path : string) : Prop :=
  file_path ∈ visited_files /\ is_Some (to_baseline file_path).

End Vocabulary.

(** Two entries record the same capture of a file: they agree on everything
    but the time at which the baseline was taken. *)
Definition same_capture (e e' : Baseline.entry) : Prop :=
  Baseline.file_path e = Baseline.file_path e'
  /\ Baseline.file_hash e = Baseline.file_hash e'
  /\ Baseline.file_size e = Baseline.file_size e'
  /\ Baseline.modification_time e = Baseline.modification_time e'
  /\ Baseline.creation_time e = Baseline.creation_time e'
  /\ Baseline.permissions e = Baseline.permissions e'.

(** The monitored paths [FileIntegrityMonitor] ends up with: those of the
    configuration file when it exists and holds a mapping (an absent key
    counting as an empty list), none otherwise. *)
Definition loaded_paths (env : Env) (safe_load : string -> yaml_result)
    (fim_config_path : string) : MonitoredPaths :=
  if path_exists env fim_config_path then
    match safe_load fim_config_path with
    | yaml_mapping include_value exclude_value =>
        {| include := default [] include_value;
           exclude := default [] exclude_value |}
    | _ => {| include := []; exclude := [] |}
    end
  else {| include := []; exclude := [] |}.

(** The configuration file is missing, or loading it does not give a
    mapping. *)
Definition unusable_config (env : Env) (safe_load : string -> yaml_result)
    (fim_config_path : string) : Prop :=
  path_exists env fim_config_path = false
  \/ forall include_value exclude_value,
       safe_load fim_config_path <> yaml_mapping include_value exclude_value.

(** The storage has no fault: the database can be opened and no statement
    fails; the table may or may not exist. *)
Definition faultless (st : Sqlite) : Prop :=
  connect_error st = None /\ forall s, stmt_error st s = None.


(** ** Example environments *)

Module Demo.

Record node := { n_stat : stat_result; n_bytes : os_error + list Byte.byte }.

(** A directory tree the way [os.walk] lists it: every directory with the
    files it holds. *)
Definition tree := list (string * list (string * node)).

Fixpoint find_in_dir (root : string) (files : list (string * node)) (p : string)
    : option node :=
  match files with
  | [] => None
  | (name, n) :: rest =>
      if String.eqb (PosixPath.join root name) p then Some n
      else find_in_dir root rest p
  end.

Fixpoint find_node (t : tree) (p : string) : option node :=
  match t with
  | [] => None
  | (root, files) :: rest =>
      match find_in_dir root files p with
      | Some n => Some n
      | None => find_node rest p
      end
  end.

Definition is_dir (t : tree) (p : string) : bool :=
  existsb (fun '(root, _) => String.eqb root p) t.

Definition ENOENT (p : string) : os_error :=
  {| not_found := true;
     strerror := "[Errno 2] No such file or directory: '" +:+ p +:+ "'" |}.

Definition EACCES (p : string) : os_error :=
  {| not_found := false; strerror := "[Errno 13] Permission denied: '" +:+ p +:+ "'" |}.

(** The environment of a process that sees the tree [t] under [top]. The
    digest is a stand-in that spells out the bytes it was given. *)
Definition tree_env (top : string) (t : tree) : Env :=
  {| cwd := "/home/fim";
     path_exists := fun p => is_dir t p || bool_decide (is_Some (find_node t p));
     os_walk := fun p =>
       if String.eqb p top
       then map (fun '(root, files) => (root, map fst files)) t
       else [];
     os_stat := fun p =>
       match find_node t p with
       | Some n => inr (n_stat n)
       | None => inl (ENOENT p)
       end;
     open_rb := fun p =>
       match find_node t p with
       | Some n => n_bytes n
       | None => inl (ENOENT p)
       end;
     time_time := fun n => (1700000000 + Z.of_nat n)%Z;
     algorithms_available :=
       ["blake2b"; "blake2s"; "md5"; "sha1"; "sha224"; "sha256"; "sha384"; "sha512"];
     hexdigest := fun a data => a +:+ ":" +:+ string_of_list_byte data;
     HASH_ALGORITHM := "sha256";
     DATABASE_PATH := "/var/lib/fim/fim_baseline.db" |}.

Definition regular (size mtime : Z) (text : string) : node :=
  {| n_stat := {| st_size := size; st_mtime := mtime; st_ctime := mtime;
                  st_mode := 33188%Z |};
     n_bytes := inr (list_byte_of_string text) |}.

(** [/srv/data] with two files in scope and one under the excluded
    directory. *)
Definition data_tree : tree :=
  [ ("/srv/data", [("a.txt", regular 5 100 "hello")]);
    ("/srv/data/excluded", [("secret.txt", regular 6 101 "secret")]);
    ("/srv/data/sub", [("b.txt", regular 5 102 "world")]) ].

(** The same tree with a file that can be listed and stat'ed but not read. *)
Definition locked_tree : tree :=
  [ ("/srv/data",
     [("a.txt", regular 5 100 "hello");
      ("locked.bin",
       {| n_stat := {| st_size := 9%Z; st_mtime := 103%Z; st_ctime := 103%Z;
                       st_mode := 32768%Z |};
          n_bytes := inl (EACCES "/srv/data/locked.bin") |})]) ].

(** The tree after [a.txt] grew by eleven bytes. *)
Definition grown_tree : tree :=
  [ ("/srv/data", [("a.txt", regular 16 200 "hellonew content")]);
    ("/srv/data/excluded", [("secret.txt", regular 6 101 "secret")]);
    ("/srv/data/sub", [("b.txt", regular 5 102 "world")]) ].

Definition env : Env := tree_env "/srv/data" data_tree.
Definition locked_env : Env := tree_env "/srv/data" locked_tree.
Definition grown_env : Env := tree_env "/srv/data" grown_tree.

Definition mp : MonitoredPaths :=
  {| include := ["/srv/data"]; exclude := ["/srv/data/excluded"] |}.

(** The configuration before the exclude entry was added. *)
Definition mp_before : MonitoredPaths :=
  {| include := ["/srv/data"]; exclude := [] |}.

Definition working : Sqlite :=
  {| connect_error := None; stmt_error := fun _ => None; table := Some ∅ |}.


Definition world_of (st : Sqlite) : World :=
  {| storage := st; conn := true; log := []; ticks := 0 |}.

Definition no_changes : Changes := {| added := []; modified := []; deleted := [] |}.

(** The store after [create_baseline] ran on the tree. *)
Definition baselined : World := snd (create_baseline env mp (world_of working)).

(** The store after a baseline taken before the exclude entry existed. *)
Definition baselined_before : World :=
  snd (create_baseline env mp_before (world_of working)).

Definition a_txt : string := "/srv/data/a.txt".
Definition secret_txt : string := "/srv/data/excluded/secret.txt".

Definition entry_a : Baseline.entry :=
  new_entry a_txt "sha256:hello" 5 100 100 420 1700000000.

Definition metadata_grown : Metadata.t :=
  {| Metadata.file_path := a_txt; Metadata.file_size := 16;
     Metadata.modification_time := 200; Metadata.creation_time := 200;
     Metadata.permissions := 420 |}.

(** C2, as the claim words it: the reasons in lower case. *)
Definition reasons_as_stated (changes : Changes) : Prop :=
  (forall r, r ∈ added changes -> reason r = "new file not in baseline")
  /\ (forall r, r ∈ deleted changes -> reason r = "file deleted from monitored path").

End Demo.

(** Further environments, built on those of [Demo]. *)
Module Scenario.

Import Demo.

Definition b_txt : string := "/srv/data/sub/b.txt".
Definition locked_bin : string := "/srv/data/locked.bin".

(** [a.txt] is still listed by the walk, but [os.stat] no longer finds it. *)
Definition vanishing_env : Env :=
  {| cwd := cwd env;
     path_exists := path_exists env;
     os_walk := os_walk env;
     os_stat := fun p => if String.eqb p a_txt then inl (ENOENT p) else os_stat env p;
     open_rb := open_rb env;
     time_time := time_time env;
     algorithms_available := algorithms_available env;
     hexdigest := hexdigest env;
     HASH_ALGORITHM := HASH_ALGORITHM env;
     DATABASE_PATH := DATABASE_PATH env |}.


(** A configuration whose only include root is not there. *)
Definition mp_unmounted : MonitoredPaths :=
  {| include := ["/mnt/backup"]; exclude := [] |}.

(** The entries of [Demo.mp], in another order and with repetitions, plus
    one more include root. *)
Definition mp_wider : MonitoredPaths :=
  {| include := ["/srv/www"; "/srv/data"; "/srv/data"]; exclude := [] |}.




End Scenario.

(** * Properties *)

(** ** Strings and paths *)

Lemma append_cons (c : ascii) (a b : string) :
  String c a +:+ b = String c (a +:+ b).
Proof. reflexivity. Qed.

Lemma startswith_app (s pre : string) :
  PyStr.startswith s pre = true <-> exists rest, s = pre +:+ rest.
Proof.
  unfold PyStr.startswith. revert s.
  induction pre as [|c pre IH]; intros s; simpl.
  - split; [intros _; by exists s | by destruct s].
  - destruct s as [|d s].
    + split; [done | by intros [rest ?]].
    + change (String.prefix (String c pre) (String d s))
        with (if ascii_dec c d then String.prefix pre s else false).
      destruct (ascii_dec c d) as [->|Hne].
      * rewrite IH. split; intros [rest Hr]; exists rest;
          rewrite append_cons in *; congruence.
      * split; [done | intros [rest Hr]; rewrite append_cons in Hr; congruence].
Qed.

Lemma startswith_refl (s : string) : PyStr.startswith s s = true.
Proof.
  apply startswith_app. exists "".
  induction s as [|c s IH]; [done | rewrite append_cons; congruence].
Qed.

(** ** PathMatcher *)

Section PathMatcher.

Variable env : Env.
Variable mp : MonitoredPaths.

Lemma include_loop_true (l : list string) (p : string) :
  include_loop env l p = true <-> prefix_in env l p.
Proof.
  induction l as [|i l IH]; simpl.
  - split; [done | intros (e & He & _); by apply elem_of_nil in He].
  - destruct (PyStr.startswith p (abspath env i)) eqn:E.
    + split; [intros _; exists i; split; [left | done] | done].
    + rewrite IH. split.
      * intros (e & He & Hp). exists e. split; [by right | done].
      * intros (e & He & Hp). apply elem_of_cons in He as [->|He].
        -- congruence.
        -- by exists e.
Qed.

Lemma exclude_loop_excluded (l : list string) (p : string) :
  prefix_in env l p -> exclude_loop env mp l p = false.
Proof.
  induction l as [|x l IH]; simpl.
  - intros (e & He & _). by apply elem_of_nil in He.
  - intros (e & He & Hp).
    destruct (PyStr.startswith p (abspath env x)) eqn:E; [done|].
    apply IH. apply elem_of_cons in He as [->|He]; [congruence | by exists e].
Qed.

Lemma exclude_loop_not_excluded (l : list string) (p : string) :
  ~ prefix_in env l p -> exclude_loop env mp l p = include_loop env (include mp) p.
Proof.
  induction l as [|x l IH]; simpl; [done|].
  intros Hn. destruct (PyStr.startswith p (abspath env x)) eqn:E.
  - exfalso. apply Hn. exists x. split; [left | done].
  - apply IH. intros (e & He & Hp). apply Hn. exists e. split; [by right | done].
Qed.

Lemma monitored_not_excluded (p : string) :
  _is_path_monitored env mp p = true -> ~ prefix_in env (exclude mp) p.
Proof.
  intros Hm Hex. apply exclude_loop_excluded in Hex.
  unfold _is_path_monitored in Hm. congruence.
Qed.

End PathMatcher.

(** C5. [_is_path_monitored]: a path that starts with a resolved exclude
    entry is rejected whatever the include list says; otherwise it is accepted
    exactly when it starts with a resolved include entry; with both lists
    empty every path is rejected; and the test is a plain string prefix (a
    path starts with an entry when it is the entry followed by any text), so
    an include of [/var/log] accepts [/var/log2/x]. *)
Theorem is_path_monitored_exclude_first (env : Env) (mp : MonitoredPaths) (p : string) :
  (prefix_in env (exclude mp) p -> _is_path_monitored env mp p = false)
  /\ (~ prefix_in env (exclude mp) p ->
      (_is_path_monitored env mp p = true <-> prefix_in env (include mp) p))
  /\ (include mp = [] -> exclude mp = [] -> _is_path_monitored env mp p = false)
  /\ (forall e, PyStr.startswith p (abspath env e) = true
                <-> exists rest, p = abspath env e +:+ rest)
  /\ abspath env "/var/log" = "/var/log"
  /\ _is_path_monitored env {| include := ["/var/log"]; exclude := [] |}
       "/var/log2/x" = true.
Proof.
  split; [|split; [|split; [|split; [|split]]]].
  - apply exclude_loop_excluded.
  - intros Hn. unfold _is_path_monitored.
    rewrite exclude_loop_not_excluded by done. apply include_loop_true.
  - intros Hi He. unfold _is_path_monitored. rewrite He. simpl. by rewrite Hi.
  - intros e. apply startswith_app.
  - reflexivity.
  - reflexivity.
Qed.

(** ** The world under logging *)

Lemma add_logs_nil (w : World) : add_logs [] w = w.
Proof. destruct w. unfold add_logs. simpl. by rewrite app_nil_r. Qed.

Lemma add_log_logs (r : Level * string) (w : World) : add_log r w = add_logs [r] w.
Proof. reflexivity. Qed.

Lemma add_logs_logs (l1 l2 : list (Level * string)) (w : World) :
  add_logs l2 (add_logs l1 w) = add_logs (l1 ++ l2) w.
Proof. unfold add_logs. simpl. by rewrite app_assoc. Qed.

Lemma logs_only_storage {A} (c : M A) (r : exn + A) (w : World) :
  logs_only c r ->
  fst (c w) = r /\ storage (snd (c w)) = storage w
  /\ conn (snd (c w)) = conn w /\ ticks (snd (c w)) = ticks w.
Proof. intros [l Hl]. by rewrite Hl. Qed.

Section LogsOnly.

Context {A B : Type}.

Lemma logs_only_ret (a : A) : logs_only (ret a) (inr a).
Proof. exists []. intros w. by rewrite add_logs_nil. Qed.

Lemma logs_only_raise (e : exn) : logs_only (raise e) (@inl exn A e).
Proof. exists []. intros w. by rewrite add_logs_nil. Qed.

Lemma logs_only_os_ok (a : A) : logs_only (os_call (inr a)) (inr a).
Proof. exists []. intros w. by rewrite add_logs_nil. Qed.

Lemma logs_only_os_error (e : os_error) :
  logs_only (os_call (inl e)) (@inl exn A (OSError_of e)).
Proof. exists []. intros w. by rewrite add_logs_nil. Qed.

Lemma logs_only_bind (c : M A) (k : A -> M B) (a : A) (r : exn + B) :
  logs_only c (inr a) -> logs_only (k a) r -> logs_only (bind c k) r.
Proof.
  intros [l1 H1] [l2 H2]. exists (l1 ++ l2)%list. intros w.
  unfold bind. by rewrite H1, H2, add_logs_logs.
Qed.

Lemma logs_only_bind_raise (c : M A) (k : A -> M B) (e : exn) :
  logs_only c (inl e) -> logs_only (bind c k) (inl e).
Proof. intros [l1 H1]. exists l1. intros w. unfold bind. by rewrite H1. Qed.

Lemma logs_only_try_ok (c : M A) (cls : exn -> bool) (h : exn -> M A) (a : A) :
  logs_only c (inr a) -> logs_only (try_except c cls h) (inr a).
Proof. intros [l1 H1]. exists l1. intros w. unfold try_except. by rewrite H1. Qed.

Lemma logs_only_try_caught (c : M A) (cls : exn -> bool) (h : exn -> M A)
    (e : exn) (r : exn + A) :
  logs_only c (inl e) -> cls e = true -> logs_only (h e) r ->
  logs_only (try_except c cls h) r.
Proof.
  intros [l1 H1] Hc [l2 H2]. exists (l1 ++ l2)%list. intros w.
  unfold try_except. by rewrite H1, Hc, H2, add_logs_logs.
Qed.

Lemma logs_only_try_passed (c : M A) (cls : exn -> bool) (h : exn -> M A) (e : exn) :
  logs_only c (inl e) -> cls e = false -> logs_only (try_except c cls h) (inl e).
Proof.
  intros [l1 H1] Hc. exists l1. intros w. unfold try_except. by rewrite H1, Hc.
Qed.

End LogsOnly.

Lemma logs_only_logger (lvl : Level) (msg : string) : logs_only (logger lvl msg) (inr tt).
Proof. by exists [(lvl, msg)]. Qed.

Lemma logs_only_seq {A} (lvl : Level) (msg : string) (c : M A) (r : exn + A) :
  logs_only c r -> logs_only (logger lvl msg ;;; c) r.
Proof. intros H. eapply logs_only_bind; [apply logs_only_logger | done]. Qed.

(** ** Fingerprinter *)

Section Fingerprinter.

Variable env : Env.

Lemma CHUNK_SIZE_pos : 0 < CHUNK_SIZE.
Proof. apply Nat.ltb_lt. by vm_compute. Qed.

Lemma take_chunk_nil {A} (f : list A) : take CHUNK_SIZE f = [] -> f = [].
Proof.
  pose proof CHUNK_SIZE_pos as Hpos. destruct CHUNK_SIZE; [lia|].
  by destruct f.
Qed.

(** Reading in chunks feeds the hasher the whole file, in order. *)
Lemma read_chunks_all (fuel : nat) (f hasher : list Byte.byte) :
  length f < fuel -> read_chunks fuel f hasher = (hasher ++ f)%list.
Proof.
  revert f hasher. induction fuel as [|fuel IH]; intros f hasher Hlen; [lia|].
  cbn [read_chunks].
  destruct (take CHUNK_SIZE f) as [|b chunk] eqn:E.
  - apply take_chunk_nil in E. subst. by rewrite app_nil_r.
  - rewrite IH.
    + by rewrite <- E, <- app_assoc, take_drop.
    + rewrite length_drop. pose proof CHUNK_SIZE_pos.
      destruct f; [by rewrite take_nil in E | simpl in *; lia].
Qed.

Lemma calculate_file_hash_outcome (file_path algorithm : string) :
  logs_only (calculate_file_hash env file_path algorithm)
            (hash_outcome env file_path algorithm).
Proof.
  unfold calculate_file_hash, hash_outcome.
  destruct (negb (path_exists env file_path)); [apply logs_only_raise|].
  destruct (negb (bool_decide _)); [apply logs_only_raise|].
  apply logs_only_seq.
  destruct (open_rb env file_path) as [[[] msg]|f].
  - eapply logs_only_try_caught; [| done |].
    + apply logs_only_bind_raise, logs_only_os_error.
    + apply logs_only_seq, logs_only_raise.
  - eapply logs_only_try_caught; [| done |].
    + apply logs_only_bind_raise, logs_only_os_error.
    + apply logs_only_seq, logs_only_raise.
  - apply logs_only_try_ok.
    eapply logs_only_bind; [apply logs_only_os_ok|].
    rewrite read_chunks_all by lia.
    apply logs_only_seq, logs_only_ret.
Qed.

End Fingerprinter.



(** ** Pre- and postconditions for [M] *)

Section Hoare.

Context {A B : Type}.

Lemma hoare_conseq (P P' : World -> Prop) (c : M A) (Q Q' : exn + A -> World -> Prop) :
  hoare P' c Q' -> (forall w, P w -> P' w) -> (forall r w, Q' r w -> Q r w) ->
  hoare P c Q.
Proof. intros H HP HQ w Hw. apply HQ, H, HP, Hw. Qed.

Lemma hoare_ret (P : World -> Prop) (a : A) (Q : exn + A -> World -> Prop) :
  (forall w, P w -> Q (inr a) w) -> hoare P (ret a) Q.
Proof. intros H w Hw. by apply H. Qed.

Lemma hoare_raise (P : World -> Prop) (e : exn) (Q : exn + A -> World -> Prop) :
  (forall w, P w -> Q (inl e) w) -> hoare P (raise e) Q.
Proof. intros H w Hw. by apply H. Qed.

Lemma hoare_bind (P : World -> Prop) (c : M A) (R : exn + A -> World -> Prop)
    (k : A -> M B) (Q : exn + B -> World -> Prop) :
  hoare P c R ->
  (forall a, hoare (R (inr a)) (k a) Q) ->
  (forall e w, R (inl e) w -> Q (inl e) w) ->
  hoare P (bind c k) Q.
Proof.
  intros Hc Hk He w Hw. specialize (Hc w Hw). unfold bind.
  destruct (c w) as [[e|a] w']; simpl in *.
  - by apply He.
  - by apply Hk.
Qed.

Lemma hoare_try (P : World -> Prop) (c : M A) (R : exn + A -> World -> Prop)
    (cls : exn -> bool) (h : exn -> M A) (Q : exn + A -> World -> Prop) :
  hoare P c R ->
  (forall a w, R (inr a) w -> Q (inr a) w) ->
  (forall e, cls e = true -> hoare (R (inl e)) (h e) Q) ->
  (forall e w, cls e = false -> R (inl e) w -> Q (inl e) w) ->
  hoare P (try_except c cls h) Q.
Proof.
  intros Hc Hok Hh Hpass w Hw. specialize (Hc w Hw). unfold try_except.
  destruct (c w) as [[e|a] w']; simpl in *.
  - destruct (cls e) eqn:E; [by apply Hh | by apply Hpass].
  - by apply Hok.
Qed.

Lemma hoare_logs_only (P : World -> Prop) (c : M A) (r : exn + A)
    (Q : exn + A -> World -> Prop) :
  logs_only c r -> (forall w l, P w -> Q r (add_logs l w)) -> hoare P c Q.
Proof. intros [l Hl] H w Hw. rewrite Hl. by apply H. Qed.

End Hoare.

Lemma hoare_logger (P : World -> Prop) (lvl : Level) (msg : string)
    (Q : exn + unit -> World -> Prop) :
  (forall w, P w -> Q (inr tt) (add_log (lvl, msg) w)) -> hoare P (logger lvl msg) Q.
Proof. intros H w Hw. by apply H. Qed.

(** The loop rule: [I done s] holds of the loop state [s] once the
    elements [done] have been processed. *)
Lemma hoare_for_each {A S} (I : list A -> S -> World -> Prop) (E : exn -> World -> Prop)
    (body : A -> S -> M S) (l : list A) (s0 : S) :
  (forall done x rest s, l = (done ++ x :: rest)%list ->
     hoare (I done s) (body x s)
       (fun r w => match r with inr s' => I (done ++ [x])%list s' w | inl e => E e w end)) ->
  hoare (I [] s0) (for_each l body s0)
    (fun r w => match r with inr s => I l s w | inl e => E e w end).
Proof.
  intros Hbody.
  assert (Hgen : forall rest done s, l = (done ++ rest)%list ->
    hoare (I done s) (for_each rest body s)
      (fun r w => match r with inr s => I l s w | inl e => E e w end)).
  { induction rest as [|x rest IH]; intros done s Hl.
    - rewrite app_nil_r in Hl. subst. by apply hoare_ret.
    - simpl. eapply hoare_bind.
      + by apply (Hbody done x rest s).
      + intros s'. simpl. apply IH. by rewrite <- app_assoc.
      + done. }
  by apply (Hgen l []).
Qed.

(** ** BaselineStore *)

Lemma healthy_no_failure (stmt : sql_stmt) (w : World) :
  healthy (storage w) -> storage_failure stmt w = None.
Proof.
  intros (Hc & Hs & [t Ht]). unfold storage_failure.
  rewrite Hc, Hs, Ht. by destruct (conn w).
Qed.

Ltac unfold_db :=
  unfold save_baseline_entry, get_baseline_entry, get_all_baseline_paths,
    remove_baseline_entry, _init_db, _get_connection, sqlite3_connect,
    execute_on_table, execute_create_table, time_now, try_except, bind, gets,
    modify, logger, ret, raise, is_sqlite3_Error, isinstance, storage_failure,
    set_table, set_conn, add_log, tick; simpl.

(** Case analysis on what a database call depends on: the connection
    [c], the connection error [ce], the statement's error and the table [t]. *)
Ltac case_db c ce se stmt t :=
  unfold_db; destruct c; [|destruct ce]; simpl;
  destruct (se stmt) eqn:?; simpl; destruct t; simpl.

Section BaselineStore.

Variable env : Env.


(** What [save_baseline_entry] does to the storage, as a triple. *)
Lemma save_baseline_entry_spec (st : Sqlite) (file_path file_hash : string)
    (file_size : Z) (modification_time creation_time : timestamp) (permissions : Z) :
  hoare (fun w => storage w = st)
    (save_baseline_entry env file_path file_hash file_size
       modification_time creation_time permissions)
    (fun r w' =>
       r = inr tt
       /\ ((storage w' = st /\ ~ healthy st)
           \/ exists t ts, table st = Some t
                /\ storage w' = with_table (Some (<[file_path :=
                     new_entry file_path file_hash file_size modification_time
                       creation_time permissions ts]> t)) st)).
Proof.
  intros w <-. unfold healthy. destruct w as [[ce se t] c l n].
  case_db c ce se INSERT_OR_REPLACE t; (split; [done|]);
    first [ right; by eauto
          | left; split; [done|]; intros (? & Hs & Ht); simpl in *;
            try congruence; try (by destruct Ht); rewrite Hs in *; congruence ].
Qed.

Lemma get_all_baseline_paths_spec (st : Sqlite) :
  hoare (fun w => storage w = st) (get_all_baseline_paths env)
    (fun r w' =>
       storage w' = st
       /\ match r with
          | inr s => exists t, table st = Some t /\ s = dom t
          | inl e => exn_cls e = sqlite3_Error /\ ~ healthy st
          end).
Proof.
  intros w <-. unfold healthy. destruct w as [[ce se t] c l n].
  case_db c ce se SELECT_PATHS t; (split; [done|]); eauto;
    (split; [done|]); intros (? & Hs & Ht); simpl in *;
    try congruence; try (by destruct Ht); rewrite Hs in *; congruence.
Qed.

Lemma get_baseline_entry_spec (st : Sqlite) (file_path : string) :
  hoare (fun w => storage w = st) (get_baseline_entry env file_path)
    (fun r w' =>
       storage w' = st
       /\ match r with
          | inr o => exists t, table st = Some t /\ o = t !! file_path
          | inl e => exn_cls e = sqlite3_Error /\ ~ healthy st
          end).
Proof.
  intros w <-. unfold healthy. destruct w as [[ce se t] c l n].
  case_db c ce se SELECT_ROW t; (split; [done|]); eauto;
    (split; [done|]); intros (? & Hs & Ht); simpl in *;
    try congruence; try (by destruct Ht); rewrite Hs in *; congruence.
Qed.

End BaselineStore.

(** ** DiffEngine: one file *)

Section OneFile.

Variable env : Env.

Lemma _get_file_metadata_outcome (file_path : string) :
  logs_only (_get_file_metadata env file_path) (inr (metadata_outcome env file_path)).
Proof.
  unfold _get_file_metadata, metadata_outcome.
  destruct (os_stat env file_path) as [[[] msg]|stat].
  - eapply logs_only_try_caught; [| done |].
    + apply logs_only_bind_raise, logs_only_os_error.
    + apply logs_only_ret.
  - eapply logs_only_try_caught; [| done |].
    + apply logs_only_bind_raise, logs_only_os_error.
    + apply logs_only_seq, logs_only_ret.
  - apply logs_only_try_ok.
    eapply logs_only_bind; [apply logs_only_os_ok | apply logs_only_ret].
Qed.

Lemma compare_with_baseline_outcome (file_path : string)
    (current_metadata : Metadata.t) (baseline_entry : Baseline.entry)
    (changes : Changes) :
  logs_only
    (compare_with_baseline env file_path current_metadata baseline_entry changes)
    (inr (apply_mismatch
            (first_mismatch env file_path current_metadata baseline_entry) changes)).
Proof.
  unfold compare_with_baseline, first_mismatch.
  destruct (negb (_ =? _)%Z).
  { apply logs_only_try_ok, logs_only_seq, logs_only_ret. }
  destruct (negb (_ =? _)%Z).
  { apply logs_only_try_ok, logs_only_seq, logs_only_ret. }
  destruct (negb (_ =? _)%Z).
  { apply logs_only_try_ok, logs_only_seq, logs_only_ret. }
  pose proof (calculate_file_hash_outcome env file_path (HASH_ALGORITHM env)) as Hh.
  destruct (hash_outcome env file_path (HASH_ALGORITHM env)) as [e|h].
  - eapply logs_only_try_caught; [| done |].
    + by apply logs_only_bind_raise.
    + apply logs_only_seq, logs_only_ret.
  - apply logs_only_try_ok. eapply logs_only_bind; [done|].
    destruct (negb (String.eqb _ _)).
    + apply logs_only_seq, logs_only_ret.
    + apply logs_only_ret.
Qed.

Lemma first_mismatch_file (file_path : string) (md : Metadata.t)
    (e : Baseline.entry) (m : Modified) :
  first_mismatch env file_path md e = Some m -> modified_file m = file_path.
Proof.
  unfold first_mismatch. intros H.
  repeat match type of H with
         | (if ?b then _ else _) = _ => destruct b
         | match ?x with _ => _ end = _ => destruct x
         end; by simplify_eq.
Qed.

End OneFile.

(** C1. For a path whose metadata is read and whose baseline entry is found,
    the loop body of [check_integrity] compares size, then modification
    time, then permission bits, then digest, and stops at the first
    difference. A size, time or permission difference yields its entry (with
    the old and the new value) and a warning, and nothing else happens: the
    digest is not computed. Only when all three agree is
    [calculate_file_hash] run, and a [hash_mismatch] entry is appended when
    the digest it returns differs from the stored one. In every case at most
    one entry is appended to [modified], it is for this path, and [added] and
    [deleted] are untouched. *)
Theorem check_file_ordered_short_circuit (env : Env) (file_path : string)
    (changes : Changes) (w w1 w2 : World) (md : Metadata.t) (e : Baseline.entry) :
  _get_file_metadata env file_path w = (inr (Some md), w1) ->
  get_baseline_entry env file_path w1 = (inr (Some e), w2) ->
  let r := check_file env file_path changes w in
  (Metadata.file_size md <> Baseline.file_size e ->
     r = (inr (append_modified
                 (size_mismatch file_path (Baseline.file_size e)
                    (Metadata.file_size md)) changes),
          add_log (WARNING, "[MODIFIED] Size mismatch for " +:+ file_path) w2))
  /\ (Metadata.file_size md = Baseline.file_size e ->
      Metadata.modification_time md <> Baseline.modification_time e ->
      r = (inr (append_modified
                  (mtime_mismatch file_path (Baseline.modification_time e)
                     (Metadata.modification_time md)) changes),
           add_log (WARNING, "[MODIFIED] Modification time mismatch for "
                             +:+ file_path) w2))
  /\ (Metadata.file_size md = Baseline.file_size e ->
      Metadata.modification_time md = Baseline.modification_time e ->
      Metadata.permissions md <> Baseline.permissions e ->
      r = (inr (append_modified
                  (permissions_mismatch file_path
                     (PyStr.oct (Baseline.permissions e))
                     (PyStr.oct (Metadata.permissions md))) changes),
           add_log (WARNING, "[MODIFIED] Permissions mismatch for " +:+ file_path) w2))
  /\ (Metadata.file_size md = Baseline.file_size e ->
      Metadata.modification_time md = Baseline.modification_time e ->
      Metadata.permissions md = Baseline.permissions e ->
      match calculate_file_hash env file_path (HASH_ALGORITHM env) w2 with
      | (inr current_hash, w3) =>
          if String.eqb current_hash (Baseline.file_hash e) then r = (inr changes, w3)
          else r = (inr (append_modified
                           (hash_mismatch file_path (Baseline.file_hash e)
                              current_hash) changes),
                    add_log (WARNING, "[MODIFIED] Hash mismatch for " +:+ file_path) w3)
      | (inl x, w3) =>
          r = (inr changes,
               add_log (ERROR, "[ERROR] Error checking " +:+ file_path
                               +:+ " for modifications: " +:+ exn_str x) w3)
      end)
  /\ exists changes',
       fst r = inr changes'
       /\ added changes' = added changes /\ deleted changes' = deleted changes
       /\ (modified changes' = modified changes
           \/ exists m, modified changes' = (modified changes ++ [m])%list
                /\ modified_file m = file_path
                /\ modified_type m ∈ ["size_mismatch"; "mtime_mismatch";
                                      "permissions_mismatch"; "hash_mismatch"]).
Proof.
  intros Hmd He r.
  assert (Hr : r = compare_with_baseline env file_path md e changes w2).
  { subst r. unfold check_file, bind. by rewrite Hmd, He. }
  split; [|split; [|split; [|split]]].
  - intros Hs. rewrite Hr. unfold compare_with_baseline.
    apply Z.eqb_neq in Hs. by rewrite Hs.
  - intros Hs Hm. rewrite Hr. unfold compare_with_baseline.
    apply Z.eqb_eq in Hs. apply Z.eqb_neq in Hm. by rewrite Hs, Hm.
  - intros Hs Hm Hp. rewrite Hr. unfold compare_with_baseline.
    apply Z.eqb_eq in Hs, Hm. apply Z.eqb_neq in Hp. by rewrite Hs, Hm, Hp.
  - intros Hs Hm Hp. rewrite Hr. unfold compare_with_baseline.
    apply Z.eqb_eq in Hs, Hm, Hp. rewrite Hs, Hm, Hp. simpl.
    unfold try_except, bind.
    destruct (calculate_file_hash env file_path (HASH_ALGORITHM env) w2)
      as [[x|h] w3]; [done|].
    by destruct (String.eqb h (Baseline.file_hash e)).
  - rewrite Hr.
    destruct (logs_only_storage _ _ w2
                (compare_with_baseline_outcome env file_path md e changes)) as (-> & _).
    eexists. split; [done|].
    destruct (first_mismatch env file_path md e) as [m|] eqn:Hfm; simpl.
    + repeat split. right. exists m. repeat split.
      * by eapply first_mismatch_file.
      * destruct m; simpl; set_solver.
    + repeat split. by left.
Qed.

(** ** DiffEngine: the walk *)

Section Walk.

Variable env : Env.
Variable mp : MonitoredPaths.

Lemma current_file_fold (root : string) (files : list string) (acc : gset string)
    (p : string) :
  p ∈ fold_left (current_file env mp root) files acc
  <-> p ∈ acc \/ (p ∈ map (PosixPath.join root) files
                  /\ _is_path_monitored env mp p = true).
Proof.
  revert acc. induction files as [|f files IH]; intros acc; simpl.
  - rewrite elem_of_nil. tauto.
  - rewrite IH. unfold current_file. rewrite elem_of_cons.
    destruct (_is_path_monitored env mp (PosixPath.join root f)) eqn:E.
    + rewrite elem_of_union, elem_of_singleton.
      intuition (subst; auto).
    + intuition (subst; auto; congruence).
Qed.

Lemma current_walk_fold (entries : list (string * list string)) (acc : gset string)
    (p : string) :
  p ∈ fold_left (current_walk env mp) entries acc
  <-> p ∈ acc \/ (p ∈ flat_map (fun '(root, files) => map (PosixPath.join root) files)
                               entries
                  /\ _is_path_monitored env mp p = true).
Proof.
  revert acc. induction entries as [|[root files] entries IH]; intros acc; simpl.
  - rewrite elem_of_nil. tauto.
  - rewrite IH, current_file_fold, elem_of_app. tauto.
Qed.

Lemma current_include_fold (l : list string) (acc : gset string) (p : string) :
  p ∈ fold_left (current_include env mp) l acc
  <-> p ∈ acc
      \/ (p ∈ flat_map (fun include_path =>
                          if negb (path_exists env (abspath env include_path)) then []
                          else walk_files env (abspath env include_path)) l
          /\ _is_path_monitored env mp p = true).
Proof.
  revert acc. induction l as [|i l IH]; intros acc; simpl.
  - rewrite elem_of_nil. tauto.
  - rewrite IH, elem_of_app. unfold current_include.
    destruct (negb (path_exists env (abspath env i))).
    + rewrite elem_of_nil. tauto.
    + rewrite current_walk_fold. unfold walk_files. tauto.
Qed.

(** [current_paths] holds exactly the visited files that are monitored. *)
Lemma collect_current_paths_spec (p : string) :
  p ∈ collect_current_paths env mp
  <-> p ∈ visited_files env mp /\ _is_path_monitored env mp p = true.
Proof.
  unfold collect_current_paths, visited_files.
  rewrite current_include_fold. rewrite elem_of_empty. tauto.
Qed.

Lemma excluded_not_current (p : string) :
  prefix_in env (exclude mp) p -> p ∉ collect_current_paths env mp.
Proof.
  intros Hex [_ Hm]%collect_current_paths_spec.
  by apply monitored_not_excluded in Hm.
Qed.

End Walk.

Lemma hoare_loop {A S} (P : World -> Prop) (I : list A -> S -> World -> Prop)
    (E : exn -> World -> Prop) (body : A -> S -> M S) (l : list A) (s0 : S) :
  (forall w, P w -> I [] s0 w) ->
  (forall done x rest s, l = (done ++ x :: rest)%list ->
     hoare (I done s) (body x s)
       (fun r w => match r with inr s' => I (done ++ [x])%list s' w | inl e => E e w end)) ->
  hoare P (for_each l body s0)
    (fun r w => match r with inr s => I l s w | inl e => E e w end).
Proof.
  intros HP Hbody. eapply hoare_conseq; [by apply hoare_for_each | done | done].
Qed.

Lemma hoare_pure {A} (P : World -> Prop) (phi : Prop) (c : M A)
    (Q : exn + A -> World -> Prop) :
  (phi -> hoare P c Q) -> hoare (fun w => P w /\ phi) c Q.
Proof. intros H w [Hw Hphi]. by apply H. Qed.

(** ** DiffEngine: the integrity check *)

Section Check.

Variable env : Env.
Variable mp : MonitoredPaths.

Lemma check_file_spec (st : Sqlite) (file_path : string) (changes : Changes) :
  hoare (fun w => storage w = st) (check_file env file_path changes)
    (fun r w' =>
       storage w' = st
       /\ match r with
          | inr changes' =>
              forall t, table st = Some t -> changes' = check_step env t changes file_path
          | inl e => storage_error st e
          end).
Proof.
  unfold check_file.
  eapply hoare_bind
    with (R := fun r w => storage w = st /\ r = inr (metadata_outcome env file_path)).
  - eapply hoare_logs_only; [apply _get_file_metadata_outcome | done].
  - intros o. apply hoare_pure. intros [= ->].
    unfold check_step. destruct (metadata_outcome env file_path) as [md|].
    2:{ apply hoare_ret. intros w Hw. by split. }
    eapply hoare_bind; [apply get_baseline_entry_spec | |].
    + intros o w [Hst (t & Ht & ->)].
      destruct (t !! file_path) as [e|] eqn:He.
      * destruct (logs_only_storage _ _ w
          (compare_with_baseline_outcome env file_path md e changes))
          as (-> & -> & _).
        split; [done|]. intros t' Ht'. simplify_eq. by rewrite He.
      * split; [done|]. intros t' Ht'. simplify_eq. by rewrite He.
    + intros e w [Hst He]. by split.
  - intros e w [_ [=]].
Qed.

Lemma report_added_spec (st : Sqlite) (file_path : string) (changes : Changes) :
  hoare (fun w => storage w = st) (report_added file_path changes)
    (fun r w' => storage w' = st /\ r = inr (append_added (new_file file_path) changes)).
Proof. by intros w <-. Qed.

Lemma report_deleted_spec (st : Sqlite) (file_path : string) (changes : Changes) :
  hoare (fun w => storage w = st) (report_deleted file_path changes)
    (fun r w' =>
       storage w' = st /\ r = inr (append_deleted (deleted_file file_path) changes)).
Proof. by intros w <-. Qed.

(** [check_integrity] reads the table and nothing else of the world: it
    leaves the storage as it found it, and either reports [check_outcome]
    of the table or lets a storage error through. *)
Lemma check_integrity_spec (st : Sqlite) :
  hoare (fun w => storage w = st) (check_integrity env mp)
    (fun r w' =>
       storage w' = st
       /\ match r with
          | inr changes => exists t, table st = Some t /\ changes = check_outcome env mp t
          | inl e => storage_error st e
          end).
Proof.
  unfold check_integrity.
  eapply hoare_bind with (R := fun r w => storage w = st /\ r = inr tt).
  { by apply hoare_logger. }
  2:{ intros e w [_ [=]]. }
  intros []. apply hoare_pure. intros _.
  eapply hoare_bind; [apply get_all_baseline_paths_spec | | by intros e w [? ?]].
  intros B. apply hoare_pure. intros (t & Ht & ->).
  set (C := collect_current_paths env mp).
  (* the loop over the added files *)
  eapply hoare_bind.
  { apply (hoare_loop _
             (fun done s w => storage w = st
                /\ s = {| added := map new_file done; modified := []; deleted := [] |})
             (fun _ _ => False)); [done|].
    intros done x rest s _. apply hoare_pure. intros ->.
    eapply hoare_conseq; [apply (report_added_spec st) | done |].
    intros r w [Hst ->]. split; [done|].
    unfold append_added. simpl. by rewrite map_app. }
  2:{ by intros e w []. }
  intros s1. apply hoare_pure. intros ->.
  (* the loop over the deleted files *)
  eapply hoare_bind.
  { apply (hoare_loop _
             (fun done s w => storage w = st
                /\ s = {| added := map new_file (elements (C ∖ dom t));
                          modified := [];
                          deleted := map deleted_file done |})
             (fun _ _ => False)); [done|].
    intros done x rest s _. apply hoare_pure. intros ->.
    eapply hoare_conseq; [apply (report_deleted_spec st) | done |].
    intros r w [Hst ->]. split; [done|].
    unfold append_deleted. simpl. by rewrite map_app. }
  2:{ by intros e w []. }
  intros s2. apply hoare_pure. intros ->.
  (* the loop over the files in both sets *)
  eapply hoare_bind.
  { apply (hoare_loop _
             (fun done s w => storage w = st
                /\ s = fold_left (check_step env t) done
                         {| added := map new_file (elements (C ∖ dom t));
                            modified := [];
                            deleted := map deleted_file (elements (dom t ∖ C)) |})
             (fun e w => storage w = st /\ storage_error st e)); [done|].
    intros done x rest s _. apply hoare_pure. intros ->.
    eapply hoare_conseq; [apply (check_file_spec st) | done |].
    intros [e|s'] w [Hst Hr]; [done|]. split; [done|].
    rewrite fold_left_app. simpl. by apply Hr. }
  2:{ by intros e w []. }
  intros s3. apply hoare_pure. intros ->.
  eapply hoare_bind with (R := fun r w => storage w = st /\ r = inr tt).
  { by apply hoare_logger. }
  2:{ intros e w [_ [=]]. }
  intros []. apply hoare_pure. intros _.
  apply hoare_ret. intros w Hw. split; [done|]. by exists t.
Qed.

End Check.

(** ** The change report *)

Section Report.

Variable env : Env.
Variable mp : MonitoredPaths.

Lemma map_file_new_file (l : list string) : map file (map new_file l) = l.
Proof. induction l as [|x l IH]; simpl; congruence. Qed.

Lemma map_file_deleted_file (l : list string) : map file (map deleted_file l) = l.
Proof. induction l as [|x l IH]; simpl; congruence. Qed.

Lemma check_step_stored (t : gmap string Baseline.entry) (s : Changes) (x : string) :
  x ∈ dom t ->
  added (check_step env t s x) = added s
  /\ deleted (check_step env t s x) = deleted s
  /\ (modified (check_step env t s x) = modified s
      \/ exists m, modified (check_step env t s x) = (modified s ++ [m])%list
           /\ modified_file m = x).
Proof.
  intros [e He]%elem_of_dom. unfold check_step. rewrite He.
  destruct (metadata_outcome env x) as [md|]; [|by auto].
  destruct (first_mismatch env x md e) as [m|] eqn:Hm; simpl; [|by auto].
  repeat split. right. exists m. split; [done|]. by eapply first_mismatch_file.
Qed.

Lemma check_fold_stored (t : gmap string Baseline.entry) (l : list string) (s : Changes) :
  (forall x, x ∈ l -> x ∈ dom t) ->
  added (fold_left (check_step env t) l s) = added s
  /\ deleted (fold_left (check_step env t) l s) = deleted s
  /\ exists l', map modified_file (modified (fold_left (check_step env t) l s))
                = (map modified_file (modified s) ++ l')%list
       /\ l' `sublist_of` l.
Proof.
  revert s. induction l as [|x l IH]; intros s Hl; simpl.
  - repeat split. exists []. by rewrite app_nil_r.
  - destruct (check_step_stored t s x) as (Ha & Hd & Hm).
    { apply Hl. by left. }
    destruct (IH (check_step env t s x)) as (Ha' & Hd' & l' & Hm' & Hsub).
    { intros y Hy. apply Hl. by right. }
    rewrite Ha', Hd', Hm'. repeat split; [done | done |].
    destruct Hm as [-> | (m & -> & Hf)].
    + exists l'. split; [done | by apply sublist_cons].
    + exists (x :: l'). rewrite map_app, <- app_assoc. simpl. rewrite Hf.
      split; [done | by apply sublist_skip].
Qed.

(** The three collections of the report, as sets of paths. *)
Lemma check_outcome_collections (t : gmap string Baseline.entry) :
  let B := dom t in
  let C := collect_current_paths env mp in
  added (check_outcome env mp t) = map new_file (elements (C ∖ B))
  /\ deleted (check_outcome env mp t) = map deleted_file (elements (B ∖ C))
  /\ exists l', map modified_file (modified (check_outcome env mp t)) = l'
       /\ l' `sublist_of` elements (B ∩ C).
Proof.
  intros B C. unfold check_outcome.
  destruct (check_fold_stored t (elements (B ∩ C))
    {| added := map new_file (elements (C ∖ B)); modified := [];
       deleted := map deleted_file (elements (B ∖ C)) |})
    as (Ha & Hd & l' & Hm & Hsub).
  { intros x Hx%elem_of_elements. set_solver. }
  fold B C. rewrite Ha, Hd, Hm. simpl. eauto.
Qed.

Lemma check_outcome_NoDup (t : gmap string Baseline.entry) :
  NoDup (reported_paths (check_outcome env mp t)).
Proof.
  destruct (check_outcome_collections t) as (Ha & Hd & l' & Hm & Hsub).
  unfold reported_paths. rewrite Ha, Hd, Hm, map_file_new_file, map_file_deleted_file.
  pose proof (sublist_subseteq _ _ Hsub) as Hsubset.
  rewrite !NoDup_app. repeat split.
  - apply NoDup_elements.
  - intros x Hx%elem_of_elements [Hx'%Hsubset%elem_of_elements|Hx'%elem_of_elements]%elem_of_app;
      set_solver.
  - apply (sublist_NoDup l' (elements (dom t ∩ collect_current_paths env mp)));
      [apply NoDup_elements | exact Hsub].
  - intros x Hx%Hsubset%elem_of_elements Hx'%elem_of_elements. set_solver.
  - apply NoDup_elements.
Qed.

End Report.

(** ** DiffEngine: creating the baseline *)

Section CreateBaseline.

Variable env : Env.
Variable mp : MonitoredPaths.

Lemma baseline_file_spec (st : Sqlite) (root file_name : string) (n : nat) :
  let file_path := PosixPath.join root file_name in
  hoare (fun w => storage w = st) (baseline_file env mp root file_name n)
    (fun r w' =>
       match to_baseline env mp file_path with
       | Some (file_hash, metadata) =>
           r = inr (S n)
           /\ ((storage w' = st /\ ~ healthy st)
               \/ exists t ts, table st = Some t
                    /\ storage w' = with_table (Some (<[file_path :=
                         entry_of file_path file_hash metadata ts]> t)) st)
       | None => r = inr n /\ storage w' = st
       end).
Proof.
  intros file_path. unfold baseline_file, to_baseline, captured. fold file_path.
  destruct (_is_path_monitored env mp file_path).
  2:{ by apply hoare_ret. }
  pose proof (calculate_file_hash_outcome env file_path (HASH_ALGORITHM env)) as Hh.
  pose proof (_get_file_metadata_outcome env file_path) as Hm.
  destruct (hash_outcome env file_path (HASH_ALGORITHM env)) as [e|h].
  { eapply hoare_logs_only.
    - eapply logs_only_try_caught; [| done |].
      + by apply logs_only_bind_raise.
      + apply logs_only_seq, logs_only_ret.
    - done. }
  destruct (metadata_outcome env file_path) as [md|].
  2:{ eapply hoare_logs_only.
      - apply logs_only_try_ok. eapply logs_only_bind; [done|].
        eapply logs_only_bind; [done|]. apply logs_only_ret.
      - done. }
  destruct (PyStr.truthy h) eqn:Et.
  2:{ eapply hoare_logs_only.
      - apply logs_only_try_ok. eapply logs_only_bind; [done|].
        eapply logs_only_bind; [done|]. simpl. rewrite Et. apply logs_only_ret.
      - done. }
  eapply hoare_try with (R := fun r w' =>
    r = inr (S n)
    /\ ((storage w' = st /\ ~ healthy st)
        \/ exists t ts, table st = Some t
             /\ storage w' = with_table (Some (<[file_path :=
                  entry_of file_path h md ts]> t)) st)).
  - eapply hoare_bind with (R := fun r w => storage w = st /\ r = inr h).
    { by eapply hoare_logs_only. }
    2:{ by intros e w [_ [=]]. }
    intros h'. apply hoare_pure. intros [= ->].
    eapply hoare_bind with (R := fun r w => storage w = st /\ r = inr (Some md)).
    { by eapply hoare_logs_only. }
    2:{ by intros e w [_ [=]]. }
    intros o. apply hoare_pure. intros [= ->]. simpl. rewrite Et.
    eapply hoare_bind; [apply save_baseline_entry_spec | |].
    + intros []. intros w [_ H]. by split.
    + by intros e w [[=] _].
  - done.
  - by intros e _ w [[=] _].
  - by intros e w _ [[=] _].
Qed.

(** The nested loops of [create_baseline] visit [visited_files] in order:
    whatever one turn of the inner body maintains, and logging does not
    break, holds at the end for the whole list. *)
Lemma baseline_loops (J : list string -> nat -> World -> Prop) :
  (forall L n r w, J L n w -> J L n (add_log r w)) ->
  (forall L root file_name n,
     hoare (J L n) (baseline_file env mp root file_name n)
       (fun r w => match r with
                   | inr n' => J (L ++ [PosixPath.join root file_name])%list n' w
                   | inl _ => False
                   end)) ->
  hoare (J [] 0) (for_each (include mp) (baseline_include env mp) 0)
    (fun r w => match r with
                | inr n => J (visited_files env mp) n w
                | inl _ => False
                end).
Proof.
  intros Hlog Hfile.
  set (visit := fun include_path =>
         if negb (path_exists env (abspath env include_path)) then []
         else walk_files env (abspath env include_path)).
  apply (hoare_loop _ (fun done n w => J (flat_map visit done) n w) (fun _ _ => False));
    [done|].
  intros done include_path rest n _.
  rewrite flat_map_app. simpl. rewrite (app_nil_r (visit include_path)).
  unfold baseline_include.
  assert (Hv : visit include_path
               = if negb (path_exists env (abspath env include_path)) then []
                 else walk_files env (abspath env include_path)) by done.
  destruct (negb (path_exists env (abspath env include_path))) eqn:E;
    rewrite Hv; clear Hv.
  { rewrite (app_nil_r (flat_map visit done)).
    eapply hoare_bind
      with (R := fun r w => J (flat_map visit done) n w /\ r = inr tt).
    - apply hoare_logger. intros w Hw. split; [apply (Hlog _ _ _ _ Hw) | done].
    - intros []. apply hoare_ret. by intros w [? _].
    - by intros e w [_ [=]]. }
  unfold baseline_walk, walk_files.
  set (files_of := fun '(root, files) => map (PosixPath.join root) files).
  apply (hoare_loop _
           (fun done' n w => J (flat_map visit done ++ flat_map files_of done')%list n w)
           (fun _ _ => False)).
  { intros w Hw. simpl. by rewrite app_nil_r. }
  intros done' [root files] rest' n' _.
  rewrite flat_map_app. simpl. rewrite (app_nil_r (map (PosixPath.join root) files)).
  apply (hoare_loop _
           (fun done'' n w =>
              J (flat_map visit done ++ flat_map files_of done'
                 ++ map (PosixPath.join root) done'')%list n w)
           (fun _ _ => False)).
  { intros w Hw. simpl. by rewrite app_nil_r. }
  intros done'' file_name rest'' n'' _.
  eapply hoare_conseq; [apply Hfile | done |].
  intros [e|m] w; [done|]. by rewrite map_app, !app_assoc.
Qed.

End CreateBaseline.

(** ** What gets logged *)

Section Appends.

Context {A B : Type}.





End Appends.



Section BaselineLogs.

Variable env : Env.
Variable mp : MonitoredPaths.



End BaselineLogs.

Section BaselineFacts.

Variable env : Env.
Variable mp : MonitoredPaths.

Lemma to_baseline_monitored (p : string) :
  is_Some (to_baseline env mp p) -> _is_path_monitored env mp p = true.
Proof. unfold to_baseline. destruct (_is_path_monitored env mp p); [done | by intros [? ?]]. Qed.


(** [create_baseline] writes to no path it does not monitor. *)
Lemma create_baseline_unmonitored (p : string) (w : World) :
  _is_path_monitored env mp p = false ->
  stored_entry (snd (create_baseline env mp w)) p = stored_entry w p.
Proof.
  intros Hp.
  assert (Hfile : forall (L : list string) root file_name n,
    hoare (fun w' => stored_entry w' p = stored_entry w p)
      (baseline_file env mp root file_name n)
      (fun r w' => match r with
                   | inr _ => stored_entry w' p = stored_entry w p
                   | inl _ => False
                   end)).
  { intros L root file_name n w0 Hw0.
    pose proof (baseline_file_spec env mp (storage w0) root file_name n w0 eq_refl)
      as Hf.
    simpl in Hf.
    destruct (baseline_file env mp root file_name n w0) as [r w1]. simpl in *.
    destruct (to_baseline env mp (PosixPath.join root file_name))
      as [[h md]|] eqn:E.
    - destruct Hf as [-> [[Hs _]|(t & ts & Ht & Hs)]].
      + rewrite <- Hw0. unfold stored_entry. by rewrite Hs.
      + rewrite <- Hw0. unfold stored_entry. rewrite Hs, Ht. simpl.
        apply lookup_insert_ne. intros Heq.
        assert (Hm : is_Some (to_baseline env mp (PosixPath.join root file_name)))
          by (by rewrite E).
        apply to_baseline_monitored in Hm. congruence.
    - destruct Hf as [-> Hs]. rewrite <- Hw0. unfold stored_entry. by rewrite Hs. }
  pose proof (baseline_loops env mp
                (fun _ _ w' => stored_entry w' p = stored_entry w p)
                ltac:(done) Hfile
                (add_log (INFO, "[*] Creating new FIM baseline...") w) eq_refl) as Hw.
  unfold create_baseline, bind, logger, modify. simpl in *.
  destruct (for_each _ _ _ _) as [[e|n] w']; simpl in *; done.
Qed.

End BaselineFacts.


(** ** The integrity check as a whole *)

Lemma check_integrity_result (env : Env) (mp : MonitoredPaths) (w : World) :
  storage (snd (check_integrity env mp w)) = storage w
  /\ match fst (check_integrity env mp w) with
     | inr changes =>
         exists t, table (storage w) = Some t /\ changes = check_outcome env mp t
     | inl e => storage_error (storage w) e
     end.
Proof. exact (check_integrity_spec env mp (storage w) w eq_refl). Qed.

(** With a healthy store the check returns a report. *)
Lemma check_integrity_total (env : Env) (mp : MonitoredPaths) (w : World) :
  healthy (storage w) -> exists changes, fst (check_integrity env mp w) = inr changes.
Proof.
  intros Hh. destruct (check_integrity_result env mp w) as [_ H].
  destruct (fst (check_integrity env mp w)) as [e|changes]; [|by eauto].
  by destruct H as [_ []].
Qed.

(** C9. [check_integrity] performs no write: whatever it returns or raises,
    the store holds the same paths and the same entry for every path
    afterwards (its whole storage is unchanged), and so it is after the two
    read operations it is built on, [get_all_baseline_paths] and
    [get_baseline_entry]. *)
Theorem check_integrity_reads_only (env : Env) (mp : MonitoredPaths) (w : World) :
  let w' := snd (check_integrity env mp w) in
  storage w' = storage w
  /\ stored_paths w' = stored_paths w
  /\ (forall p, stored_entry w' p = stored_entry w p)
  /\ storage (snd (get_all_baseline_paths env w)) = storage w
  /\ (forall p, storage (snd (get_baseline_entry env p w)) = storage w).
Proof.
  intros w'. destruct (check_integrity_result env mp w) as [Hs _]. fold w' in Hs.
  unfold stored_paths, stored_entry. rewrite Hs. repeat split.
  - apply (get_all_baseline_paths_spec env (storage w) w eq_refl).
  - intros p. apply (get_baseline_entry_spec env (storage w) p w eq_refl).
Qed.

(** C10. The report partitions the paths it names: listing the paths of
    [added], then of [modified], then of [deleted] never repeats a path, so
    no path is in two collections or twice in one; in particular a path has
    at most one [modified] entry, and that entry has one of the four types.
    When no report is returned, a storage error was raised. *)
Theorem check_integrity_partitions (env : Env) (mp : MonitoredPaths) (w : World) :
  match fst (check_integrity env mp w) with
  | inr changes =>
      NoDup (reported_paths changes)
      /\ NoDup (map modified_file (modified changes))
      /\ (forall m, m ∈ modified changes ->
            modified_type m ∈ ["size_mismatch"; "mtime_mismatch";
                               "permissions_mismatch"; "hash_mismatch"])
  | inl e => storage_error (storage w) e
  end.
Proof.
  destruct (check_integrity_result env mp w) as [_ H].
  destruct (fst (check_integrity env mp w)) as [e|changes]; [done|].
  destruct H as (t & _ & ->).
  pose proof (check_outcome_NoDup env mp t) as Hnd.
  split; [done|]. split.
  - unfold reported_paths in Hnd.
    apply NoDup_app in Hnd as (_ & _ & Hnd). by apply NoDup_app in Hnd as (Hnd & _).
  - intros m _. destruct m; simpl; set_solver.
Qed.

(** C2, as amended. The [added] collection is one entry for each path of
    [current_paths - baseline_paths] and the [deleted] collection one entry
    for each path of [baseline_paths - current_paths], with the reasons
    ["New file not in baseline"] and ["File deleted from monitored path"]
    (capitalised as the code writes them). *)
Theorem check_integrity_set_differences (env : Env) (mp : MonitoredPaths) (w : World) :
  match fst (check_integrity env mp w) with
  | inr changes =>
      let baseline_paths := stored_paths w in
      let current_paths := collect_current_paths env mp in
      added changes
      = map (fun p => {| file := p; reason := "New file not in baseline" |})
            (elements (current_paths ∖ baseline_paths))
      /\ deleted changes
         = map (fun p => {| file := p; reason := "File deleted from monitored path" |})
               (elements (baseline_paths ∖ current_paths))
      /\ (forall p, p ∈ map file (added changes)
                    <-> p ∈ current_paths /\ p ∉ baseline_paths)
      /\ (forall p, p ∈ map file (deleted changes)
                    <-> p ∈ baseline_paths /\ p ∉ current_paths)
  | inl e => storage_error (storage w) e
  end.
Proof.
  destruct (check_integrity_result env mp w) as [_ H].
  destruct (fst (check_integrity env mp w)) as [e|changes]; [done|].
  destruct H as (t & Ht & ->).
  destruct (check_outcome_collections env mp t) as (Ha & Hd & _).
  unfold stored_paths. rewrite Ht. simpl.
  rewrite Ha, Hd, map_file_new_file, map_file_deleted_file.
  split; [done|]. split; [done|].
  split; intros p; rewrite elem_of_elements; set_solver.
Qed.

(** C8, as amended. For a path under an exclude prefix (whether or not it is
    also under an include prefix), [create_baseline] leaves the store's entry
    for it as it was, so it never writes one; and [check_integrity] never
    lists it as added or modified. It lists it as deleted exactly when the
    store already holds an entry for it, which [create_baseline] under this
    configuration never produces. *)
Theorem excluded_path_not_baselined (env : Env) (mp : MonitoredPaths) (p : string)
    (w : World) :
  prefix_in env (exclude mp) p ->
  stored_entry (snd (create_baseline env mp w)) p = stored_entry w p
  /\ match fst (check_integrity env mp w) with
     | inr changes =>
         (p ∉ map file (added changes))
         /\ (p ∉ map modified_file (modified changes))
         /\ (p ∈ map file (deleted changes) <-> p ∈ stored_paths w)
     | inl e => storage_error (storage w) e
     end.
Proof.
  intros Hex. split.
  - apply create_baseline_unmonitored.
    destruct (_is_path_monitored env mp p) eqn:E; [|done].
    by apply monitored_not_excluded in E.
  - pose proof (excluded_not_current env mp p Hex) as Hnc.
    destruct (check_integrity_result env mp w) as [_ H].
    destruct (fst (check_integrity env mp w)) as [e|changes]; [done|].
    destruct H as (t & Ht & ->).
    destruct (check_outcome_collections env mp t) as (Ha & Hd & l' & Hm & Hsub).
    unfold stored_paths. rewrite Ht, Ha, Hd, Hm, map_file_new_file, map_file_deleted_file.
    repeat split.
    + intros Hp%elem_of_elements. set_solver.
    + intros Hp%(sublist_subseteq _ _ Hsub)%elem_of_elements. set_solver.
    + intros Hp%elem_of_elements. set_solver.
    + intros Hp. apply elem_of_elements. set_solver.
Qed.

(** ** Baseline, then check *)

Section RoundTrip.

Variable env : Env.
Variable mp : MonitoredPaths.





(** On a healthy store, [create_baseline] adds a fresh env entry for every
    file it captures and touches nothing else. *)
Lemma create_baseline_healthy (w : World) (t0 : gmap string Baseline.entry) :
  healthy (storage w) -> table (storage w) = Some t0 ->
  exists w' t,
    create_baseline env mp w = (inr tt, w')
    /\ healthy (storage w') /\ table (storage w') = Some t
    /\ (forall q, q ∈ dom t
                  <-> q ∈ dom t0
                      \/ (q ∈ visited_files env mp /\ is_Some (to_baseline env mp q)))
    /\ (forall q, q ∈ visited_files env mp -> is_Some (to_baseline env mp q) ->
                  exists e, t !! q = Some e /\ fresh env q e).
Proof.
  intros Hh Ht0.
  set (J := fun (L : list string) (n : nat) (w' : World) =>
    healthy (storage w')
    /\ exists t, table (storage w') = Some t
       /\ (forall q, q ∈ dom t
                     <-> q ∈ dom t0 \/ (q ∈ L /\ is_Some (to_baseline env mp q)))
       /\ (forall q, q ∈ L -> is_Some (to_baseline env mp q) ->
                     exists e, t !! q = Some e /\ fresh env q e)).
  assert (Hfile : forall L root file_name n,
    hoare (J L n) (baseline_file env mp root file_name n)
      (fun r w' => match r with
                   | inr n' => J (L ++ [PosixPath.join root file_name])%list n' w'
                   | inl _ => False
                   end)).
  { intros L root file_name n w0 (Hh0 & t & Ht & Hdom & Hfr).
    pose proof (baseline_file_spec env mp (storage w0) root file_name n w0 eq_refl)
      as Hf.
    simpl in Hf. set (p := PosixPath.join root file_name) in *.
    destruct (baseline_file env mp root file_name n w0) as [r w1]. simpl in *.
    destruct (to_baseline env mp p) as [[h md]|] eqn:E.
    - destruct Hf as [-> [[_ Hn]|(t' & ts & Ht' & Hs)]]; [done|].
      assert (t' = t) as -> by congruence.
      split.
      { rewrite Hs. destruct Hh0 as (? & ? & ?). by repeat split. }
      eexists. split; [by rewrite Hs|]. split.
      + intros q. rewrite dom_insert_L, elem_of_union, elem_of_singleton, Hdom,
          elem_of_app, list_elem_of_singleton.
        split; [intros [->|[?|[? ?]]]; eauto | intros [?|[[?| ->] ?]]; eauto].
      + intros q [Hq|Hq%list_elem_of_singleton]%elem_of_app Hsome; [|subst q].
        * destruct (decide (q = p)) as [->|Hne].
          -- eexists. split; [apply lookup_insert_eq|].
             exists h, md, ts. split; [|done].
             unfold to_baseline in E. by destruct (_is_path_monitored env mp p).
          -- rewrite lookup_insert_ne by done. by apply Hfr.
        * eexists. split; [apply lookup_insert_eq|].
          exists h, md, ts. split; [|done].
          unfold to_baseline in E. by destruct (_is_path_monitored env mp p).
    - destruct Hf as [-> Hs]. split; [by rewrite Hs|].
      exists t. split; [by rewrite Hs|]. split.
      + intros q. rewrite Hdom, elem_of_app, list_elem_of_singleton.
        split; [intros [?|[? ?]]; eauto | intros [?|[[?| ->] Hsome]]; eauto].
        rewrite E in Hsome. by destruct Hsome.
      + intros q [Hq|Hq%list_elem_of_singleton]%elem_of_app Hsome; [|subst q].
        * by apply Hfr.
        * rewrite E in Hsome. by destruct Hsome. }
  assert (Hlog : forall L n r w', J L n w' -> J L n (add_log r w')) by done.
  assert (J [] 0 (add_log (INFO, "[*] Creating new FIM baseline...") w)) as HJ0.
  { split; [exact Hh|]. exists t0. split; [exact Ht0|]. split.
    - intros q. rewrite elem_of_nil. tauto.
    - intros q Hq. by apply elem_of_nil in Hq. }
  pose proof (baseline_loops env mp J Hlog Hfile _ HJ0) as Hw.
  unfold create_baseline, bind, logger, modify. simpl in *.
  destruct (for_each (include mp) (baseline_include env mp) 0 _) as [r w'].
  simpl in Hw. destruct r as [e|n]; [destruct Hw|].
  destruct Hw as (Hh' & t & Ht & Hdom & Hfr).
  eexists _, t. split; [reflexivity|].
  split; [exact Hh'|]. split; [exact Ht|]. split; [exact Hdom | exact Hfr].
Qed.

End RoundTrip.


(** * Worked examples *)

Module Examples.
Import Demo.

Example abspath_examples :
  PosixPath.abspath "/home/fim" "/var/log/" = "/var/log"
  /\ PosixPath.abspath "/home/fim" "logs/../data/./x//y" = "/home/fim/data/x/y"
  /\ PosixPath.abspath "/home/fim" "" = "/home/fim".
Proof. repeat split. Qed.

(** As in the repository's test of [_is_path_monitored]. *)
Example is_path_monitored_examples :
  _is_path_monitored env mp a_txt = true
  /\ _is_path_monitored env mp secret_txt = false
  /\ _is_path_monitored env mp "/tmp/unmonitored.txt" = false
  /\ _is_path_monitored env mp "/srv/data2/x" = true.
Proof. by vm_compute. Qed.

(** The algorithm name is matched whatever its letter case. *)
Example calculate_file_hash_examples :
  fst (calculate_file_hash env a_txt "SHA256" (world_of working)) = inr "sha256:hello"
  /\ fst (calculate_file_hash env a_txt "sha256" (world_of working)) = inr "sha256:hello"
  /\ fst (calculate_file_hash env a_txt "Sha512" (world_of working)) = inr "sha512:hello"
  /\ fst (calculate_file_hash env a_txt "MD5" (world_of working)) = inr "md5:hello"
  /\ fst (calculate_file_hash env a_txt "whirlpool" (world_of working))
     = inl (Exn ValueError "Unsupported hash algorithm: whirlpool")
  /\ fst (calculate_file_hash env "/srv/data/locked.bin" "sha256" (world_of working))
     = inl (Exn FileNotFoundError "File not found: /srv/data/locked.bin").
Proof. by vm_compute. Qed.

Example oct_examples : PyStr.oct 420 = "0o644" /\ PyStr.oct 0 = "0o0".
Proof. by split. Qed.

(** [DatabaseManager(db_path)] on a new database file creates the table. *)
Example DatabaseManager_creates_table :
  let fresh_file :=
    {| storage := with_table None working; conn := false; log := []; ticks := 0 |} in
  fst (DatabaseManager env fresh_file) = inr tt
  /\ storage (snd (DatabaseManager env fresh_file)) = working.
Proof. by vm_compute. Qed.

Example baseline_of_the_tree :
  stored_paths baselined = {[ a_txt; "/srv/data/sub/b.txt" ]}
  /\ stored_entry baselined a_txt = Some entry_a
  /\ stored_entry baselined secret_txt = None.
Proof. by vm_compute. Qed.

(** As in the repository's test of a modified file: appending to a
    baselined file is reported as one [size_mismatch]. *)
Example appended_file_is_size_mismatch :
  fst (check_integrity grown_env mp baselined)
  = inr {| added := []; modified := [size_mismatch a_txt 5 16]; deleted := [] |}.
Proof. by vm_compute. Qed.

(** Witness of C1: [a.txt] grew from 5 to 16 bytes after the baseline. *)
Lemma check_file_ordered_short_circuit_witness :
  _get_file_metadata grown_env a_txt baselined = (inr (Some metadata_grown), baselined)
  /\ get_baseline_entry grown_env a_txt baselined = (inr (Some entry_a), baselined)
  /\ check_file grown_env a_txt no_changes baselined
     = (inr (append_modified (size_mismatch a_txt 5 16) no_changes),
        add_log (WARNING, "[MODIFIED] Size mismatch for " +:+ a_txt) baselined).
Proof.
  assert (H1 : _get_file_metadata grown_env a_txt baselined
               = (inr (Some metadata_grown), baselined)) by (by vm_compute).
  assert (H2 : get_baseline_entry grown_env a_txt baselined
               = (inr (Some entry_a), baselined)) by (by vm_compute).
  split; [exact H1|]. split; [exact H2|].
  apply (proj1 (check_file_ordered_short_circuit grown_env a_txt no_changes
                  baselined baselined baselined metadata_grown entry_a H1 H2)).
  by vm_compute.
Defined.

(** Counterexample to C2 as stated: after the baseline, [sub/b.txt] went
    away and [locked.bin] appeared; the reasons reported are capitalised. *)
Lemma check_integrity_reasons_counterexample :
  fst (check_integrity locked_env mp baselined)
  = inr {| added := [{| file := "/srv/data/locked.bin";
                        reason := "New file not in baseline" |}];
           modified := [];
           deleted := [{| file := "/srv/data/sub/b.txt";
                          reason := "File deleted from monitored path" |}] |}
  /\ ~ (forall changes, fst (check_integrity locked_env mp baselined) = inr changes ->
                        reasons_as_stated changes).
Proof.
  assert (H : fst (check_integrity locked_env mp baselined)
              = inr {| added := [{| file := "/srv/data/locked.bin";
                                    reason := "New file not in baseline" |}];
                       modified := [];
                       deleted := [{| file := "/srv/data/sub/b.txt";
                                      reason := "File deleted from monitored path" |}] |})
    by (by vm_compute).
  split; [exact H|]. intros Hc. destruct (Hc _ H) as [Ha _].
  specialize (Ha _ ltac:(by left)). simpl in Ha. discriminate Ha.
Qed.





Lemma secret_excluded : prefix_in env (exclude mp) secret_txt.
Proof. exists "/srv/data/excluded". split; [set_solver | by vm_compute]. Qed.

Lemma secret_included : prefix_in env (include mp) secret_txt.
Proof. exists "/srv/data". split; [set_solver | by vm_compute]. Qed.

(** Counterexample to C8 as stated: the baseline was taken before
    [/srv/data/excluded] was excluded; the file is still there, under an
    include and an exclude prefix, and the check lists it as deleted. *)
Lemma excluded_path_counterexample :
  prefix_in env (include mp) secret_txt
  /\ prefix_in env (exclude mp) secret_txt
  /\ path_exists env secret_txt = true
  /\ fst (check_integrity env mp baselined_before)
     = inr {| added := [];
              modified := [];
              deleted := [{| file := secret_txt;
                             reason := "File deleted from monitored path" |}] |}.
Proof.
  split; [apply secret_included|]. split; [apply secret_excluded|].
  split; by vm_compute.
Qed.


(** Witness of C8: [secret.txt] against the store of the earlier
    configuration, which holds an entry for it. *)
Lemma excluded_path_not_baselined_witness :
  prefix_in env (exclude mp) secret_txt
  /\ stored_entry (snd (create_baseline env mp baselined_before)) secret_txt
     = stored_entry baselined_before secret_txt
  /\ match fst (check_integrity env mp baselined_before) with
     | inr changes =>
         (secret_txt ∉ map file (added changes))
         /\ (secret_txt ∉ map modified_file (modified changes))
         /\ (secret_txt ∈ map file (deleted changes)
             <-> secret_txt ∈ stored_paths baselined_before)
     | inl e => storage_error (storage baselined_before) e
     end.
Proof.
  split; [exact secret_excluded|].
  exact (excluded_path_not_baselined env mp secret_txt baselined_before secret_excluded).
Defined.

End Examples.

(** * Further properties of the store *)

Section StoreOperations.

Variable env : Env.




Lemma get_all_baseline_paths_healthy (w : World) (t : gmap string Baseline.entry) :
  healthy (storage w) -> table (storage w) = Some t ->
  fst (get_all_baseline_paths env w) = inr (dom t).
Proof.
  intros Hh Ht.
  destruct (get_all_baseline_paths_spec env (storage w) w eq_refl) as [_ H].
  destruct (fst (get_all_baseline_paths env w)) as [e|o].
  - by destruct H as [_ []].
  - destruct H as (t' & Ht' & ->). congruence.
Qed.

End StoreOperations.





(** X5. [DatabaseManager(db_path)] never raises, even when the database cannot
    be opened or the table cannot be created (both are logged as critical).
    It keeps the rows of a table that already exists, creates an empty table
    when there is none and CREATE TABLE succeeds, and ends with an open
    connection exactly when [sqlite3.connect] succeeds. *)
Theorem DatabaseManager_keeps_existing_rows (env : Env) (w : World) :
  let r := DatabaseManager env w in
  fst r = inr tt
  /\ (forall t, table (storage w) = Some t -> storage (snd r) = storage w)
  /\ (table (storage w) = None ->
      table (storage (snd r))
      = if bool_decide (connect_error (storage w) = None
                        /\ stmt_error (storage w) CREATE_TABLE = None)
        then Some ∅ else None)
  /\ (conn (snd r) = true <-> connect_error (storage w) = None).
Proof.
  destruct w as [[ce se t] c l n]. unfold DatabaseManager.
  unfold_db.
  destruct ce as [m|]; simpl;
    [|destruct (se CREATE_TABLE) as [m|] eqn:E; simpl; [|destruct t; simpl]];
    repeat split; try done; intros; simpl in *; subst;
    try case_bool_decide; simpl in *; try done; try (by intuition congruence).
Qed.

(** * Further properties of the fingerprinter and of the metadata *)

(** X6. A file that exists but cannot be read: with an available algorithm,
    [calculate_file_hash] raises the error of [open] itself (a
    [FileNotFoundError] when the file vanished after the existence check, an
    [OSError] otherwise) after logging it at ERROR level; the two records of
    the call are all it changes in the world. *)
Theorem calculate_file_hash_read_failure (env : Env) (file_path algorithm : string)
    (e : os_error) (w : World) :
  path_exists env file_path = true ->
  PyStr.lower algorithm ∈ algorithms_available env ->
  open_rb env file_path = inl e ->
  calculate_file_hash env file_path algorithm w
  = (inl (OSError_of e),
     add_logs
       [(DEBUG, "[*] Hashing file '" +:+ file_path +:+ "' with "
                +:+ PyStr.lower algorithm +:+ "...");
        (ERROR, if not_found e
                then "[ERROR] File not found during hashing: " +:+ file_path
                else "[ERROR] Failed to hash file " +:+ file_path +:+ ": "
                     +:+ strerror e)] w).
Proof.
  intros Hex Hal Hop. unfold calculate_file_hash.
  rewrite Hex, (bool_decide_eq_true_2 _ Hal). simpl.
  unfold bind, logger, modify, try_except, os_call, raise, add_logs, add_log.
  simpl. rewrite Hop. simpl. destruct e as [[] msg]; simpl;
    by rewrite <- app_assoc.
Qed.

(** X7. [_get_file_metadata] never raises and touches nothing but the log.
    When [os.stat] succeeds it returns the size and the two times as they
    are, and as permissions the mode modulo 512 (the nine permission bits, a
    number from 0 to 511, whatever the file-type bits are). When [os.stat]
    fails it returns [None]: silently for a missing file, after one ERROR
    record otherwise. *)
Theorem get_file_metadata_never_raises (env : Env) (file_path : string) (w : World) :
  match os_stat env file_path with
  | inr stat =>
      exists md,
        _get_file_metadata env file_path w = (inr (Some md), w)
        /\ Metadata.file_path md = file_path
        /\ Metadata.file_size md = st_size stat
        /\ Metadata.modification_time md = st_mtime stat
        /\ Metadata.creation_time md = st_ctime stat
        /\ Metadata.permissions md = (st_mode stat mod 512)%Z
        /\ (0 <= Metadata.permissions md < 512)%Z
  | inl e =>
      _get_file_metadata env file_path w
      = (inr None,
         if not_found e then w
         else add_logs [(ERROR, "[ERROR] Failed to get metadata for " +:+ file_path
                                +:+ ": " +:+ strerror e)] w)
  end.
Proof.
  unfold _get_file_metadata, try_except, bind, os_call, ret, logger, modify.
  destruct (os_stat env file_path) as [[[] msg]|stat]; simpl; try done.
  eexists. split; [reflexivity|]. simpl. repeat split; try done.
  - change 511%Z with (Z.ones 9). by rewrite Z.land_ones.
  - change 511%Z with (Z.ones 9). rewrite Z.land_ones by done.
    apply Z.mod_pos_bound. done.
  - change 511%Z with (Z.ones 9). rewrite Z.land_ones by done.
    apply Z.mod_pos_bound. done.
Qed.

(** * Further properties of the path matcher *)

Lemma append_assoc' (a b c : string) : (a +:+ b) +:+ c = a +:+ (b +:+ c).
Proof. induction a as [|x a IH]; [done|]. rewrite !append_cons. by rewrite IH. Qed.

Lemma startswith_extend (p pre rest : string) :
  PyStr.startswith p pre = true -> PyStr.startswith (p +:+ rest) pre = true.
Proof.
  rewrite !startswith_app. intros [r ->]. exists (r +:+ rest). apply append_assoc'.
Qed.

Lemma is_path_monitored_iff (env : Env) (mp : MonitoredPaths) (p : string) :
  _is_path_monitored env mp p = true
  <-> prefix_in env (include mp) p /\ ~ prefix_in env (exclude mp) p.
Proof.
  split.
  - intros Hm. pose proof (monitored_not_excluded env mp p Hm) as Hn.
    split; [|done]. apply include_loop_true.
    unfold _is_path_monitored in Hm. by rewrite exclude_loop_not_excluded in Hm.
  - intros [Hi Hn]. unfold _is_path_monitored.
    rewrite exclude_loop_not_excluded by done. by apply include_loop_true.
Qed.

(** X8. The path matcher depends on the two lists only as sets, and in one
    direction each: a monitored path stays monitored when include entries are
    added and exclude entries are removed. In particular the order of the
    entries and their repetitions in [fim_config.yaml] do not matter. *)
Theorem is_path_monitored_monotone (env : Env) (mp mp' : MonitoredPaths) (p : string) :
  include mp ⊆ include mp' -> exclude mp' ⊆ exclude mp ->
  _is_path_monitored env mp p = true -> _is_path_monitored env mp' p = true.
Proof.
  intros Hi He. rewrite !is_path_monitored_iff.
  intros [(i & Hin & Hp) Hn]. split.
  - exists i. split; [by apply Hi | done].
  - intros (x & Hx & Hxp). apply Hn. exists x. split; [by apply He | done].
Qed.

(** X9. Exclusion is closed under extension: when a path starts with a
    resolved exclude entry, so does every path that extends it, so nothing
    below an excluded directory is monitored, whatever the include list
    says. *)
Theorem excluded_prefix_excludes_extensions (env : Env) (mp : MonitoredPaths)
    (p rest : string) :
  prefix_in env (exclude mp) p ->
  _is_path_monitored env mp (p +:+ rest) = false.
Proof.
  intros (x & Hx & Hp). apply exclude_loop_excluded.
  exists x. split; [done | by apply startswith_extend].
Qed.

(** * Further properties of [create_baseline] *)

Section BaselineFrame.

Variable env : Env.
Variable mp : MonitoredPaths.


(** An entry changes only if its file is captured. *)
Lemma create_baseline_frame (p : string) (w : World) :
  ~ baselined_file env mp p ->
  stored_entry (snd (create_baseline env mp w)) p = stored_entry w p.
Proof.
  intros Hp.
  set (J := fun (L : list string) (n : nat) (w' : World) =>
    ~ (p ∈ L /\ is_Some (to_baseline env mp p)) ->
    stored_entry w' p = stored_entry w p).
  assert (Hfile : forall (L : list string) root file_name n,
    hoare (J L n) (baseline_file env mp root file_name n)
      (fun r w' => match r with
                   | inr n' => J (L ++ [PosixPath.join root file_name])%list n' w'
                   | inl _ => False
                   end)).
  { intros L root file_name n w0 Hw0.
    pose proof (baseline_file_spec env mp (storage w0) root file_name n w0 eq_refl)
      as Hf.
    simpl in Hf. set (x := PosixPath.join root file_name) in *.
    destruct (baseline_file env mp root file_name n w0) as [r w1]. simpl in *.
    assert (Hstep : forall n', r = inr n' ->
              (to_baseline env mp x = None -> storage w1 = storage w0) ->
              (forall h md, to_baseline env mp x = Some (h, md) ->
                 storage w1 = storage w0
                 \/ exists t ts, table (storage w0) = Some t
                      /\ storage w1 = with_table (Some (<[x :=
                           entry_of x h md ts]> t)) (storage w0)) ->
              J (L ++ [x])%list n' w1).
    { intros n' _ Hnone Hsome Hnot.
      rewrite <- Hw0.
      2:{ intros [HL Hs]. apply Hnot. split; [|done]. apply elem_of_app. by left. }
      destruct (to_baseline env mp x) as [[h md]|] eqn:E.
      - destruct (Hsome h md eq_refl) as [Hs|(t & ts & Ht & Hs)].
        + unfold stored_entry. by rewrite Hs.
        + unfold stored_entry. rewrite Hs, Ht. simpl.
          apply lookup_insert_ne. intros ->. apply Hnot.
          split; [|by rewrite E]. apply elem_of_app. right. by left.
      - unfold stored_entry. by rewrite Hnone. }
    destruct (to_baseline env mp x) as [[h md]|] eqn:E.
    - destruct Hf as [-> Hf]. apply (Hstep (S n)); [done | done |].
      intros h' md' [= <- <-]. destruct Hf as [[? _]|?]; [by left | by right].
    - destruct Hf as [-> Hs]. apply (Hstep n); [done | done | done]. }
  assert (Hlog : forall L n r w', J L n w' -> J L n (add_log r w')) by done.
  pose proof (baseline_loops env mp J Hlog Hfile
                (add_log (INFO, "[*] Creating new FIM baseline...") w)
                ltac:(by intros _)) as Hw.
  unfold create_baseline, bind, logger, modify. simpl in *.
  destruct (for_each _ _ _ _) as [[e|n] w']; simpl in *; [done|].
  apply Hw. intros [? ?]. by apply Hp.
Qed.

(** No stored path is lost. *)
Lemma create_baseline_keeps_paths (p : string) (w : World) :
  p ∈ stored_paths w -> p ∈ stored_paths (snd (create_baseline env mp w)).
Proof.
  intros Hp.
  assert (Hfile : forall (L : list string) root file_name n,
    hoare (fun w' => p ∈ stored_paths w')
      (baseline_file env mp root file_name n)
      (fun r w' => match r with
                   | inr _ => p ∈ stored_paths w'
                   | inl _ => False
                   end)).
  { intros L root file_name n w0 Hw0.
    pose proof (baseline_file_spec env mp (storage w0) root file_name n w0 eq_refl)
      as Hf.
    simpl in Hf.
    destruct (baseline_file env mp root file_name n w0) as [r w1]. simpl in *.
    destruct (to_baseline env mp (PosixPath.join root file_name)) as [[h md]|].
    - destruct Hf as [-> [[Hs _]|(t & ts & Ht & Hs)]].
      + unfold stored_paths in *. by rewrite Hs.
      + unfold stored_paths in *. rewrite Hs. rewrite Ht in Hw0. simpl.
        rewrite dom_insert_L. set_solver.
    - destruct Hf as [-> Hs]. unfold stored_paths in *. by rewrite Hs. }
  pose proof (baseline_loops env mp (fun _ _ w' => p ∈ stored_paths w')
                ltac:(intros ? ? ? ? H; exact H) Hfile
                (add_log (INFO, "[*] Creating new FIM baseline...") w) Hp) as Hw.
  unfold create_baseline, bind, logger, modify. simpl in *.
  destruct (for_each _ _ _ _) as [[e|n] w']; simpl in *; done.
Qed.

End BaselineFrame.

(** X10. [create_baseline] only adds to the store, whatever state the
    storage is in: no stored path loses its entry (in particular the entry
    of a file that was deleted since or is no longer in scope stays), and the
    entry of a path is rewritten only if the walk visits the path, the path
    is monitored and its digest and metadata are captured. *)
Theorem create_baseline_only_adds (env : Env) (mp : MonitoredPaths) (w : World) :
  let w' := snd (create_baseline env mp w) in
  stored_paths w ⊆ stored_paths w'
  /\ (forall p, ~ baselined_file env mp p -> stored_entry w' p = stored_entry w p).
Proof.
  split.
  - intros p. apply create_baseline_keeps_paths.
  - intros p. apply create_baseline_frame.
Qed.


Lemma same_capture_refl (o : option Baseline.entry) : option_Forall2 same_capture o o.
Proof. destruct o; constructor. by repeat split. Qed.

(** X12. Taking the baseline twice in a row on a working store, with the
    files unchanged in between, stores the same paths as taking it once, and
    every entry differs from the one of the first run at most in the time
    the baseline was taken. *)
Theorem create_baseline_twice (env : Env) (mp : MonitoredPaths) (w : World) :
  healthy (storage w) ->
  let w1 := snd (create_baseline env mp w) in
  let w2 := snd (create_baseline env mp w1) in
  stored_paths w2 = stored_paths w1
  /\ forall p, option_Forall2 same_capture (stored_entry w2 p) (stored_entry w1 p).
Proof.
  intros Hh w1 w2. pose proof Hh as (_ & _ & [t0 Ht0]).
  destruct (create_baseline_healthy env mp w t0 Hh Ht0)
    as (w1' & t1 & Hw1 & Hh1 & Ht1 & Hdom1 & Hfr1).
  assert (w1 = w1') as Hw by (subst w1; by rewrite Hw1). clearbody w1. subst w1'.
  destruct (create_baseline_healthy env mp w1 t1 Hh1 Ht1)
    as (w2' & t2 & Hw2 & Hh2 & Ht2 & Hdom2 & Hfr2).
  assert (w2 = w2') as Hw by (subst w2; by rewrite Hw2).
  split.
  - rewrite Hw. unfold stored_paths. rewrite Ht1, Ht2.
    apply set_eq. intros q. rewrite Hdom2, Hdom1. unfold baselined_file. tauto.
  - intros p.
    destruct (decide (p ∈ visited_files env mp)) as [Hv|Hv].
    + destruct (to_baseline env mp p) as [[h md]|] eqn:E.
      * destruct (Hfr1 p Hv) as (e1 & He1 & h1 & md1 & ts1 & Hc1 & ->);
          [by rewrite E|].
        destruct (Hfr2 p Hv) as (e2 & He2 & h2 & md2 & ts2 & Hc2 & ->);
          [by rewrite E|].
        rewrite Hw. unfold stored_entry. rewrite Ht1, Ht2, He1, He2.
        constructor. rewrite Hc1 in Hc2. simplify_eq. by repeat split.
      * subst w2. rewrite create_baseline_frame; [apply same_capture_refl|].
        intros [_ Hs]. rewrite E in Hs. by destruct Hs.
    + subst w2. rewrite create_baseline_frame; [apply same_capture_refl|].
      by intros [? _].
Qed.

(** * Further properties of [check_integrity] *)

Section Modified.

Variable env : Env.
Variable mp : MonitoredPaths.

Lemma check_step_modified (t : gmap string Baseline.entry) (s : Changes) (x : string) :
  x ∈ dom t ->
  modified (check_step env t s x)
  = (modified s ++ option_list (mismatch_of env t x))%list.
Proof.
  intros [e He]%elem_of_dom. unfold check_step, mismatch_of. rewrite He.
  destruct (metadata_outcome env x) as [md|]; simpl; [|by rewrite app_nil_r].
  destruct (first_mismatch env x md e); simpl; [done | by rewrite app_nil_r].
Qed.

Lemma check_fold_modified (t : gmap string Baseline.entry) (l : list string)
    (s : Changes) :
  (forall x, x ∈ l -> x ∈ dom t) ->
  modified (fold_left (check_step env t) l s)
  = (modified s ++ omap (mismatch_of env t) l)%list.
Proof.
  revert s. induction l as [|x l IH]; intros s Hl; simpl.
  - by rewrite app_nil_r.
  - rewrite IH by (intros y Hy; apply Hl; by right).
    rewrite check_step_modified by (apply Hl; by left).
    rewrite <- app_assoc. f_equal. by destruct (mismatch_of env t x).
Qed.

Lemma check_outcome_modified (t : gmap string Baseline.entry) :
  modified (check_outcome env mp t)
  = omap (mismatch_of env t) (elements (dom t ∩ collect_current_paths env mp)).
Proof.
  unfold check_outcome. rewrite check_fold_modified; [done|].
  intros x Hx%elem_of_elements. set_solver.
Qed.

Lemma mismatch_of_file (t : gmap string Baseline.entry) (x : string) (m : Modified) :
  mismatch_of env t x = Some m -> modified_file m = x.
Proof.
  unfold mismatch_of. destruct (metadata_outcome env x) as [md|]; [|done].
  destruct (t !! x) as [e|]; [|done]. apply first_mismatch_file.
Qed.

Lemma elem_of_check_outcome_modified (t : gmap string Baseline.entry) (m : Modified) :
  m ∈ modified (check_outcome env mp t)
  <-> modified_file m ∈ dom t ∩ collect_current_paths env mp
      /\ mismatch_of env t (modified_file m) = Some m.
Proof.
  rewrite check_outcome_modified, list_elem_of_omap. split.
  - intros (x & Hx%elem_of_elements & Hm).
    pose proof (mismatch_of_file t x m Hm) as <-. done.
  - intros [Hx Hm]. exists (modified_file m). split; [by apply elem_of_elements | done].
Qed.

Lemma first_mismatch_is_Some (p : string) (md : Metadata.t) (e : Baseline.entry) :
  is_Some (first_mismatch env p md e)
  <-> Metadata.file_size md <> Baseline.file_size e
      \/ Metadata.modification_time md <> Baseline.modification_time e
      \/ Metadata.permissions md <> Baseline.permissions e
      \/ exists h, hash_outcome env p (HASH_ALGORITHM env) = inr h
                   /\ h <> Baseline.file_hash e.
Proof.
  unfold first_mismatch.
  destruct (Z.eqb_spec (Metadata.file_size md) (Baseline.file_size e)) as [Hs|Hs];
    simpl; [|by split; eauto].
  destruct (Z.eqb_spec (Metadata.modification_time md)
              (Baseline.modification_time e)) as [Ht|Ht];
    simpl; [|by split; eauto].
  destruct (Z.eqb_spec (Metadata.permissions md) (Baseline.permissions e)) as [Hp|Hp];
    simpl; [|by split; eauto].
  destruct (hash_outcome env p (HASH_ALGORITHM env)) as [x|h].
  - split; [by intros [? ?]|]. intros [?|[?|[?|(h & [=] & _)]]]; done.
  - destruct (String.eqb_spec h (Baseline.file_hash e)) as [Hh|Hh]; simpl.
    + split; [by intros [? ?]|]. intros [?|[?|[?|(h' & [= <-] & ?)]]]; done.
    + split; [|by eauto]. intros _. right. right. right. by exists h.
Qed.

End Modified.

(** X13. The [modified] collection, entry by entry: the report holds an
    entry [m] exactly when the path of [m] is both stored and found by the
    walk, its metadata can be read, and [m] is the first difference between
    the metadata (then the digest) and the stored entry. *)
Theorem check_integrity_modified_entries (env : Env) (mp : MonitoredPaths) (w : World) :
  match fst (check_integrity env mp w) with
  | inr changes =>
      forall m, m ∈ modified changes
                <-> modified_file m ∈ collect_current_paths env mp
                    /\ exists md e,
                         metadata_outcome env (modified_file m) = Some md
                         /\ stored_entry w (modified_file m) = Some e
                         /\ first_mismatch env (modified_file m) md e = Some m
  | inl e => storage_error (storage w) e
  end.
Proof.
  destruct (check_integrity_result env mp w) as [_ H].
  destruct (fst (check_integrity env mp w)) as [e|changes]; [done|].
  destruct H as (t & Ht & ->). intros m.
  rewrite elem_of_check_outcome_modified. unfold stored_entry, mismatch_of.
  rewrite Ht. set (p := modified_file m). split.
  - intros [Hp Hm].
    destruct (metadata_outcome env p) as [md|]; [|done].
    destruct (t !! p) as [e|] eqn:E; [|done].
    split; [set_solver|]. by exists md, e.
  - intros (Hc & md & e & -> & He & Hm). rewrite He. split; [|done].
    apply elem_of_intersection. split; [|done]. apply elem_of_dom. by exists e.
Qed.

(** X14. What the check detects on a file that is stored, found by the walk
    and whose metadata can be read: the file is reported as modified exactly
    when its size, its modification time or its permission bits differ from
    the entry, or its digest can be computed and differs. A file whose
    digest cannot be computed and whose metadata agree is not reported. A
    change of size is reported as [size_mismatch] with the stored and the
    current size. *)
Theorem check_integrity_detects (env : Env) (mp : MonitoredPaths) (w : World)
    (p : string) (e : Baseline.entry) (md : Metadata.t) :
  stored_entry w p = Some e ->
  p ∈ collect_current_paths env mp ->
  metadata_outcome env p = Some md ->
  match fst (check_integrity env mp w) with
  | inr changes =>
      (p ∈ map modified_file (modified changes)
       <-> Metadata.file_size md <> Baseline.file_size e
           \/ Metadata.modification_time md <> Baseline.modification_time e
           \/ Metadata.permissions md <> Baseline.permissions e
           \/ exists h, hash_outcome env p (HASH_ALGORITHM env) = inr h
                        /\ h <> Baseline.file_hash e)
      /\ (Metadata.file_size md <> Baseline.file_size e ->
          size_mismatch p (Baseline.file_size e) (Metadata.file_size md)
          ∈ modified changes)
  | inl x => storage_error (storage w) x
  end.
Proof.
  intros He Hc Hmd.
  destruct (check_integrity_result env mp w) as [_ H].
  destruct (fst (check_integrity env mp w)) as [x|changes]; [done|].
  destruct H as (t & Ht & ->).
  unfold stored_entry in He. rewrite Ht in He.
  assert (Hin : p ∈ dom t ∩ collect_current_paths env mp).
  { apply elem_of_intersection. split; [|done]. apply elem_of_dom. by exists e. }
  assert (Hmm : mismatch_of env t p = first_mismatch env p md e).
  { unfold mismatch_of. by rewrite Hmd, He. }
  split.
  - rewrite <- first_mismatch_is_Some, <- Hmm, list_elem_of_fmap. split.
    + intros (m & -> & [_ Hm]%elem_of_check_outcome_modified). by rewrite Hm.
    + intros [m Hm]. exists m.
      pose proof (mismatch_of_file env t p m Hm) as Hf. split; [done|].
      apply elem_of_check_outcome_modified. by rewrite Hf.
  - intros Hsize. apply elem_of_check_outcome_modified. simpl. split; [done|].
    rewrite Hmm. unfold first_mismatch.
    by destruct (Z.eqb_spec (Metadata.file_size md) (Baseline.file_size e)).
Qed.

(** X15. A blind spot of the check: a stored file that the walk still lists
    but whose [os.stat] fails (it vanished meanwhile, or its directory cannot
    be searched) appears in none of the three collections. *)
Theorem check_integrity_skips_unreadable_metadata (env : Env) (mp : MonitoredPaths)
    (w : World) (p : string) :
  p ∈ stored_paths w ->
  p ∈ collect_current_paths env mp ->
  metadata_outcome env p = None ->
  match fst (check_integrity env mp w) with
  | inr changes => p ∉ reported_paths changes
  | inl x => storage_error (storage w) x
  end.
Proof.
  intros Hs Hc Hmd.
  destruct (check_integrity_result env mp w) as [_ H].
  destruct (fst (check_integrity env mp w)) as [x|changes]; [done|].
  destruct H as (t & Ht & ->).
  unfold stored_paths in Hs. rewrite Ht in Hs.
  destruct (check_outcome_collections env mp t) as (Ha & Hd & _).
  unfold reported_paths.
  rewrite Ha, Hd, map_file_new_file, map_file_deleted_file, !elem_of_app,
    !elem_of_elements, list_elem_of_fmap.
  intros [Hp|[(m & -> & [_ Hm]%elem_of_check_outcome_modified)|Hp]];
    [set_solver | | set_solver].
  unfold mismatch_of in Hm. by rewrite Hmd in Hm.
Qed.

Lemma visited_files_no_roots (env : Env) (mp : MonitoredPaths) :
  (forall i, i ∈ include mp -> path_exists env (abspath env i) = false) ->
  visited_files env mp = [].
Proof.
  unfold visited_files. induction (include mp) as [|i l IH]; intros Hl; simpl; [done|].
  rewrite (Hl i) by (by left). simpl. apply IH. intros j Hj. apply Hl. by right.
Qed.

(** X16. When none of the include roots exists (the list is empty, or the
    monitored directories are gone or not mounted), the check finds no
    current file: it reports nothing as added or modified, and every stored
    path as deleted. *)
Theorem check_integrity_without_roots (env : Env) (mp : MonitoredPaths) (w : World) :
  (forall i, i ∈ include mp -> path_exists env (abspath env i) = false) ->
  match fst (check_integrity env mp w) with
  | inr changes =>
      added changes = [] /\ modified changes = []
      /\ deleted changes = map deleted_file (elements (stored_paths w))
  | inl x => storage_error (storage w) x
  end.
Proof.
  intros Hroots.
  assert (HC : collect_current_paths env mp = ∅).
  { apply set_eq. intros p. rewrite collect_current_paths_spec,
      (visited_files_no_roots env mp Hroots), elem_of_nil. set_solver. }
  destruct (check_integrity_result env mp w) as [_ H].
  destruct (fst (check_integrity env mp w)) as [x|changes]; [done|].
  destruct H as (t & Ht & ->).
  destruct (check_outcome_collections env mp t) as (Ha & Hd & _).
  rewrite Ha, Hd, check_outcome_modified, HC. unfold stored_paths. rewrite Ht.
  replace (∅ ∖ dom t) with (∅ : gset string) by set_solver.
  replace (dom t ∩ ∅) with (∅ : gset string) by set_solver.
  replace (dom t ∖ ∅) with (dom t) by set_solver.
  by rewrite elements_empty.
Qed.

(** X17. The check keeps no memory of what it reported: on a working store
    it always returns a report (no failure on a single file aborts it), and
    running it again right away, with the files unchanged, returns the same
    report, so a violation is reported until the baseline is taken again. *)
Theorem check_integrity_repeatable (env : Env) (mp : MonitoredPaths) (w : World) :
  healthy (storage w) ->
  exists changes,
    fst (check_integrity env mp w) = inr changes
    /\ fst (check_integrity env mp (snd (check_integrity env mp w))) = inr changes.
Proof.
  intros Hh.
  destruct (check_integrity_result env mp w) as [Hs H].
  destruct (check_integrity_result env mp (snd (check_integrity env mp w)))
    as [_ H'].
  rewrite Hs in H'.
  destruct (fst (check_integrity env mp w)) as [x|changes];
    [by destruct H as [_ []]|].
  destruct (fst (check_integrity env mp (snd _))) as [x|changes'];
    [by destruct H' as [_ []]|].
  destruct H as (t & Ht & ->). destruct H' as (t' & Ht' & ->).
  exists (check_outcome env mp t). split; [done|]. congruence.
Qed.


(** * The configuration and the commands *)

Lemma run_bind {A B} (c : M A) (k : A -> M B) (w w' : World) (a : A) :
  c w = (inr a, w') -> (x <- c ;; k x) w = k a w'.
Proof. intros H. unfold bind. by rewrite H. Qed.

Lemma run_bind_raise {A B} (c : M A) (k : A -> M B) (w w' : World) (e : exn) :
  c w = (inl e, w') -> (x <- c ;; k x) w = (inl e, w').
Proof. intros H. unfold bind. by rewrite H. Qed.

Section ConfigFacts.

Variable env : Env.
Variable safe_load : string -> yaml_result.

Lemma FileIntegrityMonitor_outcome (config : string) :
  logs_only (FileIntegrityMonitor env safe_load config)
            (inr (loaded_paths env safe_load config)).
Proof.
  unfold FileIntegrityMonitor, _load_fim_config, loaded_paths.
  destruct (path_exists env config); simpl.
  - destruct (safe_load config); simpl;
      (eapply logs_only_bind; [apply logs_only_seq, logs_only_ret|]);
      apply logs_only_seq, logs_only_ret.
  - eapply logs_only_bind; [apply logs_only_seq, logs_only_ret|].
    apply logs_only_seq, logs_only_ret.
Qed.

Lemma loaded_paths_unusable (config : string) :
  unusable_config env safe_load config ->
  loaded_paths env safe_load config = {| include := []; exclude := [] |}.
Proof.
  unfold loaded_paths. intros [->|Hn]; [done|].
  destruct (path_exists env config); [|done].
  destruct (safe_load config) as [i e| |]; [|done..]. by destruct (Hn i e).
Qed.

End ConfigFacts.

(** X19. [FileIntegrityMonitor(fim_config_path, db_manager)] never raises and
    changes nothing but the log, whatever the configuration file holds. When
    the file is missing, is not valid YAML or does not hold a mapping, both
    lists stay empty and the monitor accepts no path at all; when it holds a
    mapping, the lists are its [include] and [exclude] values, an absent key
    counting as an empty list. *)
Theorem FileIntegrityMonitor_loads_config (env : Env)
    (safe_load : string -> yaml_result) (config : string) (w : World) :
  exists mp l,
    FileIntegrityMonitor env safe_load config w = (inr mp, add_logs l w)
    /\ (unusable_config env safe_load config ->
        mp = {| include := []; exclude := [] |}
        /\ forall p, _is_path_monitored env mp p = false)
    /\ (forall include_value exclude_value,
          path_exists env config = true ->
          safe_load config = yaml_mapping include_value exclude_value ->
          include mp = default [] include_value
          /\ exclude mp = default [] exclude_value).
Proof.
  destruct (FileIntegrityMonitor_outcome env safe_load config) as [l Hl].
  exists (loaded_paths env safe_load config), l. split; [apply Hl|]. split.
  - intros Hu. by rewrite loaded_paths_unusable.
  - intros i e Hex Hy. unfold loaded_paths. by rewrite Hex, Hy.
Qed.

Section CommandFacts.

Variable env : Env.

Lemma DatabaseManager_run (w : World) :
  exists w1,
    DatabaseManager env w = (inr tt, w1)
    /\ (faultless (storage w) ->
        healthy (storage w1)
        /\ table (storage w1) = Some (default ∅ (table (storage w))))
    /\ (healthy (storage w) -> storage w1 = storage w)
    /\ (forall msg, connect_error (storage w) = Some msg ->
          storage w1 = storage w /\ conn w1 = false).
Proof.
  destruct w as [[ce se t] c l n]. unfold DatabaseManager, faultless, healthy.
  unfold_db.
  destruct ce as [m|]; simpl;
    [|destruct (se CREATE_TABLE) as [m|] eqn:E; simpl; [|destruct t; simpl]];
    eexists; (split; [reflexivity|]); simpl;
    (split; [intros [Hc Hs] | split; [intros (Hc & Hs & Ht) | intros msg Hm]]);
    simpl in *; try discriminate; try (by destruct Ht);
    try (specialize (Hs CREATE_TABLE); congruence); try done;
    (split; [|done]); (split; [done|]); (split; [done|]); by eexists.
Qed.


Lemma get_all_baseline_paths_connect_error (w : World) (msg : string) :
  conn w = false -> connect_error (storage w) = Some msg ->
  fst (get_all_baseline_paths env w) = inl (Exn sqlite3_Error msg).
Proof.
  destruct w as [[ce se t] c l n]. simpl. intros -> ->. unfold_db. done.
Qed.



End CommandFacts.


(** X21. The [status] command. Without a database file it echoes one line,
    ends with status 0 and creates nothing. With a database file and a
    working store it echoes the number of stored paths and ends with status
    0. It has no handler of its own: when the database cannot be opened, the
    [sqlite3.Error] of [get_all_baseline_paths] escapes the command. *)
Theorem status_command_outcome (env : Env) (w : World) :
  let database := DATABASE_PATH env in
  (path_exists env database = false ->
   fst (Cli.status env w)
   = inr {| output := [(stdout, "[!] Baseline database not found at " +:+ database
                                +:+ ". No baseline established.")];
            exit_code := 0 |}
   /\ storage (snd (Cli.status env w)) = storage w)
  /\ (path_exists env database = true -> healthy (storage w) ->
      fst (Cli.status env w)
      = inr {| output :=
                 [(stdout, Cli.newline +:+ "--- FIM Baseline Status ---");
                  (stdout, "Baseline Database: " +:+ database);
                  (stdout, "Monitored Files in Baseline: "
                           +:+ pretty (size (stored_paths w)));
                  (stdout, "---------------------------")];
               exit_code := 0 |}
      /\ storage (snd (Cli.status env w)) = storage w)
  /\ (path_exists env database = true ->
      forall msg, connect_error (storage w) = Some msg ->
        fst (Cli.status env w) = inl (Exn sqlite3_Error msg)).
Proof.
  intros database. unfold Cli.status. fold database.
  erewrite run_bind by reflexivity.
  destruct (path_exists env database) eqn:Hex; simpl.
  2:{ by repeat split. }
  set (w0 := add_log _ w).
  destruct (DatabaseManager_run env w0) as (w1 & Hdb & _ & Hh & Hce).
  rewrite (run_bind _ _ _ _ _ Hdb).
  split; [done|]. split.
  - intros _ Hhealthy. specialize (Hh Hhealthy).
    pose proof Hhealthy as (_ & _ & [t Ht]).
    assert (Hh1 : healthy (storage w1)) by (by rewrite Hh).
    assert (Ht1 : table (storage w1) = Some t) by (by rewrite Hh).
    pose proof (get_all_baseline_paths_healthy env w1 t Hh1 Ht1) as Hget.
    destruct (get_all_baseline_paths_spec env (storage w1) w1 eq_refl) as [Hs _].
    destruct (get_all_baseline_paths env w1) as [r w2] eqn:Hrun. simpl in *. subst r.
    rewrite (run_bind _ _ _ _ _ Hrun). unfold ret. simpl.
    unfold stored_paths. rewrite Ht. split; [done|]. by rewrite Hs.
  - intros _ msg Hmsg. destruct (Hce msg Hmsg) as [Hst Hcn].
    assert (Hmsg1 : connect_error (storage w1) = Some msg)
      by (rewrite Hst; exact Hmsg).
    pose proof (get_all_baseline_paths_connect_error env w1 msg Hcn Hmsg1) as Hget.
    destruct (get_all_baseline_paths env w1) as [r w2] eqn:Hrun. simpl in *. subst r.
    by rewrite (run_bind_raise _ _ _ _ _ Hrun).
Qed.

Section InitFacts.

Variable env : Env.
Variable safe_load : string -> yaml_result.



End InitFacts.




(** * Worked examples of the further properties *)

Module MoreExamples.

Import Demo Scenario.

Lemma working_healthy : healthy (storage (world_of working)).
Proof. split; [done|]. split; [done|]. by eexists. Qed.


Lemma baselined_healthy : healthy (storage baselined).
Proof.
  split; [by vm_compute|]. split; [intros s; by vm_compute|].
  vm_compute. by eexists.
Qed.

Lemma a_txt_current (e : Env) :
  bool_decide (a_txt ∈ collect_current_paths e mp) = true ->
  a_txt ∈ collect_current_paths e mp.
Proof. apply bool_decide_eq_true_1. Qed.



(** Witness of X6: [locked.bin] exists but cannot be opened. *)
Lemma calculate_file_hash_read_failure_witness :
  path_exists locked_env locked_bin = true
  /\ PyStr.lower "SHA256" ∈ algorithms_available locked_env
  /\ open_rb locked_env locked_bin = inl (EACCES locked_bin)
  /\ fst (calculate_file_hash locked_env locked_bin "SHA256" (world_of working))
     = inl (Exn OSError "[Errno 13] Permission denied: '/srv/data/locked.bin'").
Proof.
  assert (H1 : path_exists locked_env locked_bin = true) by (by vm_compute).
  assert (H2 : PyStr.lower "SHA256" ∈ algorithms_available locked_env).
  { apply (bool_decide_eq_true_1 _). by vm_compute. }
  assert (H3 : open_rb locked_env locked_bin = inl (EACCES locked_bin))
    by (by vm_compute).
  split; [exact H1|]. split; [exact H2|]. split; [exact H3|].
  by rewrite (calculate_file_hash_read_failure locked_env locked_bin "SHA256"
                (EACCES locked_bin) (world_of working) H1 H2 H3).
Defined.

(** Witness of X8: [a.txt] under [Demo.mp] and under a configuration with
    more include roots, in another order, and no exclude entry. *)
Lemma is_path_monitored_monotone_witness :
  include mp ⊆ include mp_wider
  /\ exclude mp_wider ⊆ exclude mp
  /\ _is_path_monitored env mp a_txt = true
  /\ _is_path_monitored env mp_wider a_txt = true.
Proof.
  assert (H1 : include mp ⊆ include mp_wider) by (simpl; set_solver).
  assert (H2 : exclude mp_wider ⊆ exclude mp) by (simpl; set_solver).
  assert (H3 : _is_path_monitored env mp a_txt = true) by (by vm_compute).
  split; [exact H1|]. split; [exact H2|]. split; [exact H3|].
  exact (is_path_monitored_monotone env mp mp_wider a_txt H1 H2 H3).
Defined.

(** Witness of X9: the excluded directory and a file below it. *)
Lemma excluded_prefix_excludes_extensions_witness :
  prefix_in env (exclude mp) "/srv/data/excluded"
  /\ _is_path_monitored env mp ("/srv/data/excluded" +:+ "/secret.txt") = false.
Proof.
  assert (H1 : prefix_in env (exclude mp) "/srv/data/excluded").
  { exists "/srv/data/excluded". split; [simpl; set_solver | by vm_compute]. }
  split; [exact H1|].
  exact (excluded_prefix_excludes_extensions env mp "/srv/data/excluded"
           "/secret.txt" H1).
Defined.


(** Witness of X12: the baseline of the tree of [Demo.env], taken twice. *)
Lemma create_baseline_twice_witness :
  healthy (storage (world_of working))
  /\ stored_paths (snd (create_baseline env mp baselined)) = stored_paths baselined.
Proof.
  split; [exact working_healthy|].
  exact (proj1 (create_baseline_twice env mp (world_of working) working_healthy)).
Defined.

(** Witness of X14: [a.txt] grew from 5 to 16 bytes after the baseline. *)
Lemma check_integrity_detects_witness :
  stored_entry baselined a_txt = Some entry_a
  /\ a_txt ∈ collect_current_paths grown_env mp
  /\ metadata_outcome grown_env a_txt = Some metadata_grown
  /\ exists changes,
       fst (check_integrity grown_env mp baselined) = inr changes
       /\ size_mismatch a_txt 5 16 ∈ modified changes.
Proof.
  assert (H1 : stored_entry baselined a_txt = Some entry_a) by (by vm_compute).
  assert (H2 : a_txt ∈ collect_current_paths grown_env mp).
  { apply a_txt_current. by vm_compute. }
  assert (H3 : metadata_outcome grown_env a_txt = Some metadata_grown)
    by (by vm_compute).
  split; [exact H1|]. split; [exact H2|]. split; [exact H3|].
  pose proof (check_integrity_detects grown_env mp baselined a_txt entry_a
                metadata_grown H1 H2 H3) as H.
  destruct (check_integrity_total grown_env mp baselined baselined_healthy)
    as [changes Hc].
  rewrite Hc in H. exists changes. split; [exact Hc|].
  apply (proj2 H). intros Heq. discriminate Heq.
Defined.

(** Witness of X15: [a.txt] is stored and listed, but [os.stat] fails. *)
Lemma check_integrity_skips_unreadable_metadata_witness :
  a_txt ∈ stored_paths baselined
  /\ a_txt ∈ collect_current_paths vanishing_env mp
  /\ metadata_outcome vanishing_env a_txt = None
  /\ exists changes,
       fst (check_integrity vanishing_env mp baselined) = inr changes
       /\ a_txt ∉ reported_paths changes.
Proof.
  assert (H1 : a_txt ∈ stored_paths baselined).
  { apply (bool_decide_eq_true_1 _). by vm_compute. }
  assert (H2 : a_txt ∈ collect_current_paths vanishing_env mp).
  { apply a_txt_current. by vm_compute. }
  assert (H3 : metadata_outcome vanishing_env a_txt = None) by (by vm_compute).
  split; [exact H1|]. split; [exact H2|]. split; [exact H3|].
  pose proof (check_integrity_skips_unreadable_metadata vanishing_env mp baselined
                a_txt H1 H2 H3) as H.
  destruct (check_integrity_total vanishing_env mp baselined baselined_healthy)
    as [changes Hc].
  rewrite Hc in H. exists changes. split; [exact Hc | exact H].
Defined.

(** Witness of X16: the only include root is not mounted. *)
Lemma check_integrity_without_roots_witness :
  (forall i, i ∈ include mp_unmounted -> path_exists env (abspath env i) = false)
  /\ exists changes,
       fst (check_integrity env mp_unmounted baselined) = inr changes
       /\ added changes = [] /\ modified changes = []
       /\ deleted changes = map deleted_file (elements (stored_paths baselined)).
Proof.
  assert (H1 : forall i, i ∈ include mp_unmounted ->
                         path_exists env (abspath env i) = false).
  { intros i Hi. apply list_elem_of_singleton in Hi as ->. by vm_compute. }
  split; [exact H1|].
  pose proof (check_integrity_without_roots env mp_unmounted baselined H1) as H.
  destruct (check_integrity_total env mp_unmounted baselined baselined_healthy)
    as [changes Hc].
  rewrite Hc in H. exists changes. split; [exact Hc | exact H].
Defined.

(** Witness of X17: two checks in a row after [a.txt] grew. *)
Lemma check_integrity_repeatable_witness :
  healthy (storage baselined)
  /\ exists changes,
       fst (check_integrity grown_env mp baselined) = inr changes
       /\ fst (check_integrity grown_env mp
                 (snd (check_integrity grown_env mp baselined))) = inr changes.
Proof.
  split; [exact baselined_healthy|].
  exact (check_integrity_repeatable grown_env mp baselined baselined_healthy).
Defined.





End MoreExamples.
